(** * The example notebooks of nengo-dl, embedded in Rocq

    The sources are three notebooks: spa-retrieval ("Optimizing a cognitive
    model"), from-tensorflow ("Coming from TensorFlow to NengoDL") and
    "Integrating a Keras model into a Nengo network", called keras_model
    below.  Two Python functions defined in them have a body of their own:
    [get_data] and [accuracy] of spa-retrieval.  They are embedded here over
    an interface of the libraries they call (numpy and nengo.spa, neither of
    which is among the sources); the cells that drive a simulator are
    embedded as programs over the life cycle of the simulator object. *)

From Stdlib Require Import ZArith QArith String Ascii List Lia Bool.
From Stdlib Require Import DecimalString DecimalNat.
From stdpp Require Import base gmap strings list.

(** ** Exceptions

    Neither notebook function has a [raise] statement.  Every failure is
    an exception that propagates out of a library call; the record keeps the
    exception class and the call it came out of. *)

Inductive exception :=
  | IndexError | ValueError | SyntaxError | ValidationError | SpaParseError
  | AxisError.

Inductive callee :=
  | ndarray_getitem | ndarray_setitem | np_dot_call
  | np_argmax_call | np_equal_call | np_all_call | randint_call
  | Vocabulary_init | Vocabulary_getitem | Vocabulary_add | Vocabulary_parse.

Record failure := Failure { exc : exception; raised_in : callee }.

Inductive result (A : Type) :=
  | Ok (a : A)
  | Raise (f : failure).
Arguments Ok {A} a.
Arguments Raise {A} f.

#[global] Instance result_ret : MRet result := fun A a => Ok a.
#[global] Instance result_bind : MBind result := fun A B k m =>
  match m with
  | Ok a => k a
  | Raise f => Raise f
  end.

Definition is_ok {A} (r : result A) : bool :=
  match r with Ok _ => true | Raise _ => false end.

(** ** Scalars

    The arrays hold float64 numbers.  The embedding is over any scalar type
    with the operations the code uses and a strict total order (float64
    without NaN and with exact arithmetic).

    The notebooks do not say which numpy they run on, and in one place the
    release shows: [numpy_1_25] says whether it is 1.25 or a later one. *)

Class Scalar := {
  scalar : Type;
  scalar_eq_dec :: EqDecision scalar;
  R0 : scalar;
  Radd : scalar → scalar → scalar;
  Rmul : scalar → scalar → scalar;
  Rdiv : scalar → scalar → scalar;
  Rsqrt : scalar → scalar;
  Rltb : scalar → scalar → bool;
  numpy_1_25 : bool;
  Rltb_irrefl : ∀ x, Rltb x x = false;
  Rltb_trans : ∀ x y z, Rltb x y = true → Rltb y z = true → Rltb x z = true;
  Rltb_total : ∀ x y, Rltb x y = false → Rltb y x = false → x = y
}.

(** A Python float as [np.mean] returns it: a number, or NaN for the mean of
    an empty array. *)
Inductive pyfloat :=
  | Finite (q : Q)
  | NaN.

(** ** numpy arrays

    An array carries its shape next to its items, as numpy does: the shape of
    an array with no rows still has a number of columns. *)

Record ndarray2 (A : Type) := Array2 {
  shape2 : nat * nat;
  rows2 : list (list A)
}.
Arguments Array2 {A} shape2 rows2.
Arguments shape2 {A} n.
Arguments rows2 {A} n.

Record ndarray3 (A : Type) := Array3 {
  shape3 : nat * nat * nat;
  items3 : list (list (list A))
}.
Arguments Array3 {A} shape3 items3.
Arguments shape3 {A} n.
Arguments items3 {A} n.

Definition wf_rows {A} (n0 n1 : nat) (rows : list (list A)) : Prop :=
  length rows = n0 ∧ Forall (λ r, length r = n1) rows.

Definition wf3 {A} (a : ndarray3 A) : Prop :=
  length (items3 a) = (shape3 a).1.1 ∧
  Forall (wf_rows (shape3 a).1.2 (shape3 a).2) (items3 a).

(** Python's index normalisation on an axis of length [len]: negative
    indices count from the end. *)
Definition py_index (len : nat) (i : Z) : option nat :=
  if bool_decide (0 ≤ i < Z.of_nat len)%Z then Some (Z.to_nat i)
  else if bool_decide (- Z.of_nat len ≤ i < 0)%Z
       then Some (Z.to_nat (Z.of_nat len + i))
       else None.

(** [a[:, t, :]], and [a[:, t]] which numpy completes with a full slice. *)
Definition index_axis1 {A} (a : ndarray3 A) (t : Z) : result (ndarray2 A) :=
  let '(n0, n1, n2) := shape3 a in
  match py_index n1 t with
  | None => Raise (Failure IndexError ndarray_getitem)
  | Some j => Ok (Array2 (n0, n2) (map (λ m, nth j m []) (items3 a)))
  end.

Definition column {A} (d : A) (i : nat) (rows : list (list A)) : list A :=
  map (λ r, nth i r d) rows.

(** [a[idxs]] with an integer index array: the rows at those indices. *)
Definition take_rows {A} (a : ndarray2 A) (idxs : list nat)
  : result (ndarray2 A) :=
  let '(n0, n1) := shape2 a in
  if forallb (λ i, i <? n0) idxs
  then Ok (Array2 (length idxs, n1) (map (λ i, nth i (rows2 a) []) idxs))
  else Raise (Failure IndexError ndarray_getitem).

(** Broadcasting of one axis: equal lengths, or one of them is 1. *)
Definition broadcast_dim (a b : nat) : option nat :=
  if a =? b then Some a
  else if a =? 1 then Some b
  else if b =? 1 then Some a
  else None.

Definition broadcast_idx (len i : nat) : nat := if len =? 1 then 0 else i.

(** [np.all(a, axis=1)] and [np.mean] of the resulting array of booleans. *)
Definition np_all_axis1 (a : ndarray2 bool) : list bool :=
  map (forallb id) (rows2 a).

Definition count_true (l : list bool) : nat := length (filter (λ b, b = true) l).

Definition np_mean (l : list bool) : pyfloat :=
  match length l with
  | O => NaN
  | S _ => Finite (Z.of_nat (count_true l) # Pos.of_nat (length l))
  end.

Section Numeric.
Context `{Scalar}.

(** What [a == b] on shapes that cannot be broadcast comes to.  numpy 1.25
    and later raise ValueError in the comparison.  Earlier releases return
    False from it (with a warning), and the [np.all(..., axis=1)] that the
    notebook applies to every comparison then raises AxisError, for that
    value has no axis 1. *)
Definition comparison_failure : failure :=
  if numpy_1_25 then Failure ValueError np_equal_call
  else Failure AxisError np_all_call.

(** [a == b] on two-dimensional arrays, under [np.all(..., axis=1)]. *)
Definition np_equal (a b : ndarray2 scalar) : result (ndarray2 bool) :=
  let '(r1, c1) := shape2 a in
  let '(r2, c2) := shape2 b in
  match broadcast_dim r1 r2, broadcast_dim c1 c2 with
  | Some r, Some c =>
      Ok (Array2 (r, c)
            (map (λ i,
               map (λ j,
                 bool_decide
                   (nth (broadcast_idx c1 j)
                        (nth (broadcast_idx r1 i) (rows2 a) []) R0
                    = nth (broadcast_idx c2 j)
                        (nth (broadcast_idx r2 i) (rows2 b) []) R0))
                 (seq 0 c))
               (seq 0 r)))
  | _, _ => Raise comparison_failure
  end.

Definition dot (u v : list scalar) : scalar :=
  foldr Radd R0 (zip_with Rmul u v).

(** [a.T] *)
Definition T (a : ndarray2 scalar) : ndarray2 scalar :=
  let '(n0, n1) := shape2 a in
  Array2 (n1, n0) (map (λ j, column R0 j (rows2 a)) (seq 0 n1)).

(** [np.dot(a, b)] of two matrices. *)
Definition np_dot (a b : ndarray2 scalar) : result (ndarray2 scalar) :=
  let '(n, m) := shape2 a in
  let '(m', p) := shape2 b in
  if bool_decide (m = m')
  then Ok (Array2 (n, p)
             (map (λ r, map (λ i, dot r (column R0 i (rows2 b))) (seq 0 p))
                  (rows2 a)))
  else Raise (Failure ValueError np_dot_call).

(** [np.argmax] of a one-dimensional sequence: the first index that holds
    the greatest value. *)
Fixpoint argmax_from (best_i : nat) (best : scalar) (i : nat)
    (xs : list scalar) : nat :=
  match xs with
  | [] => best_i
  | x :: xs' =>
      if Rltb best x then argmax_from i x (S i) xs'
      else argmax_from best_i best (S i) xs'
  end.

Definition argmax (xs : list scalar) : nat :=
  match xs with
  | [] => 0
  | x :: xs' => argmax_from 0 x 1 xs'
  end.

(** [np.argmax(a, axis=0)]: one index per column; numpy refuses an axis of
    length zero. *)
Definition np_argmax_axis0 (a : ndarray2 scalar) : result (list nat) :=
  let '(n0, n1) := shape2 a in
  if n0 =? 0 then Raise (Failure ValueError np_argmax_call)
  else Ok (map (λ i, argmax (column R0 i (rows2 a))) (seq 0 n1)).

(** ** nengo.spa.Vocabulary, as far as the notebook reads and writes it

    [pointers] maps a key to its vector, [keys] lists the keys in order of
    insertion and [vectors] stacks the vectors in the same order.  [rng] says
    which generator new pointers are drawn from. *)

Inductive rng_ref :=
  | GlobalRng     (* rng=None: numpy's module-level generator *)
  | LocalRng.     (* the RandomState object the caller passed in *)

Record Vocabulary := {
  dimensions : nat;
  rng : rng_ref;
  keys : list string;
  pointers : gmap string (list scalar);
  vectors : list (list scalar)
}.

(** [vocab.vectors] as the array it is: (number of keys, dimensions). *)
Definition vectors_array (vocab : Vocabulary) : ndarray2 scalar :=
  Array2 (length (vectors vocab), dimensions vocab) (vectors vocab).

(** ** accuracy (spa-retrieval.ipynb) *)

Definition accuracy (output : ndarray3 scalar) (vocab : Vocabulary)
    (targets : ndarray3 scalar) (t_step : Z) : result pyfloat :=
  (* output = output[:, t_step, :] *)
  output ← index_axis1 output t_step;
  (* sims = np.dot(vocab.vectors, output.T) *)
  sims ← np_dot (vectors_array vocab) (T output);
  (* idxs = np.argmax(sims, axis=0) *)
  idxs ← np_argmax_axis0 sims;
  (* acc = np.mean(np.all(vocab.vectors[idxs] == targets[:, 0], axis=1)) *)
  picked ← take_rows (vectors_array vocab) idxs;
  tgt ← index_axis1 targets 0;
  eq ← np_equal picked tgt;
  Ok (np_mean (np_all_axis1 eq)).

(** The default [t_step=-1]: the last time step. *)
Definition accuracy_last output vocab targets :=
  accuracy output vocab targets (-1).

(** ** Notions the statements below are written with *)

(** What the claim calls the vector with the greatest similarity: index [k]
    holds a greatest value of [xs], and is the first index that does. *)
Definition first_max (xs : list scalar) (k : nat) : Prop :=
  k < length xs ∧
  (∀ j, j < length xs → Rltb (nth k xs R0) (nth j xs R0) = false) ∧
  (∀ j, j < k → Rltb (nth j xs R0) (nth k xs R0) = true).

(** [a[i, j, :]] *)
Definition row_at (a : ndarray3 scalar) (i j : nat) : list scalar :=
  nth j (nth i (items3 a) []) [].

(** The similarity of [o] to every vector of the vocabulary. *)
Definition similarities (vocab : Vocabulary) (o : list scalar) : list scalar :=
  map (λ v, dot v o) (vectors vocab).

End Numeric.

(** ** The libraries behind [get_data]

    numpy's random generators and the pointer factory of nengo.spa are taken
    as an interface: a generator state, the draws the notebook makes from it,
    and the two facts about them the notebook relies on.  [seed] ranges over
    the values other than [None] that [np.random.RandomState] accepts: an
    integer or an array of integers.  [None], which it accepts as well, is
    Rocq's [None] of [option seed]. *)

Class Framework `{Scalar} := {
  seed : Type;
  RngState : Type;
  (* np.random.RandomState(seed), for a seed that is not None *)
  RandomState : seed → RngState;
  (* rng.randint(high), for high > 0 *)
  randint : nat → RngState → nat * RngState;
  (* Vocabulary.create_pointer: a fresh vector of the vocabulary's dimension,
     drawn with regard to the vectors already there *)
  create_pointer : nat → list (list scalar) → RngState → list scalar * RngState;
  randint_lt : ∀ high s, 0 < high → (randint high s).1 < high;
  create_pointer_length : ∀ d vs s, length (create_pointer d vs s).1 = d
}.

Section GetData.
Context `{Framework}.

(** The generators a call can draw from: numpy's module-level one, and the
    [RandomState] object that [get_data] creates.  That object is shared:
    the local variable [rng] and the attribute [vocab.rng] name the same
    state.  [os_entropy] is what the operating system hands out when it is
    asked for entropy: the seed material of the next requests, in turn. *)
Record World := {
  np_random : RngState;
  rng_obj : RngState;
  os_entropy : nat → seed
}.

Definition M (A : Type) : Type := World → result (A * World).

#[global] Instance M_ret : MRet M := λ A a w, Ok (a, w).
#[global] Instance M_bind : MBind M := λ A B k m w,
  match m w with
  | Ok (a, w') => k a w'
  | Raise f => Raise f
  end.

Definition lift {A} (r : result A) : M A := λ w,
  match r with
  | Ok a => Ok (a, w)
  | Raise f => Raise f
  end.

Definition draw {A} (r : rng_ref) (f : RngState → A * RngState) : M A := λ w,
  match r with
  | GlobalRng =>
      let '(a, s) := f (np_random w) in
      Ok (a, {| np_random := s; rng_obj := rng_obj w;
                os_entropy := os_entropy w |})
  | LocalRng =>
      let '(a, s) := f (rng_obj w) in
      Ok (a, {| np_random := np_random w; rng_obj := s;
                os_entropy := os_entropy w |})
  end.

(** [rng = np.random.RandomState(vocab_seed)].  With [None] numpy seeds the
    new generator from the operating system's entropy, afresh at each call. *)
Definition new_RandomState (sd : option seed) : M unit := λ w,
  match sd with
  | Some s =>
      Ok ((), {| np_random := np_random w; rng_obj := RandomState s;
                 os_entropy := os_entropy w |})
  | None =>
      Ok ((), {| np_random := np_random w;
                 rng_obj := RandomState (os_entropy w 0);
                 os_entropy := λ n, os_entropy w (S n) |})
  end.

(** [rng.randint(high)]; numpy refuses an empty range. *)
Definition rng_randint (high : nat) : M nat :=
  if high =? 0 then lift (Raise (Failure ValueError randint_call))
  else draw LocalRng (randint high).

(** *** Semantic pointers: [a + b], [a * b] and [normalize] *)

Definition vadd (a b : list scalar) : list scalar := zip_with Radd a b.

(** [a * b] on semantic pointers is circular convolution: item [k] is the sum
    of [a[j] * b[(k - j) mod d]].  (nengo.spa evaluates this sum through the
    FFT.) *)
Definition cconv (a b : list scalar) : list scalar :=
  let d := length a in
  map (λ k,
    foldr Radd R0
      (map (λ j, Rmul (nth j a R0) (nth ((k + d - j) mod d) b R0)) (seq 0 d)))
    (seq 0 d).

Definition normalize (v : list scalar) : list scalar :=
  let nrm := Rsqrt (dot v v) in
  if Rltb R0 nrm then map (λ x, Rdiv x nrm) v else v.

(** *** Vocabulary *)

Definition is_upper (c : ascii) : bool :=
  (65 <=? nat_of_ascii c) && (nat_of_ascii c <=? 90).
Definition is_lower (c : ascii) : bool :=
  (97 <=? nat_of_ascii c) && (nat_of_ascii c <=? 122).
Definition is_digit (c : ascii) : bool :=
  (48 <=? nat_of_ascii c) && (nat_of_ascii c <=? 57).

(** A key is a name that starts with a capital letter. *)
Definition valid_key (key : string) : bool :=
  match key with
  | String c _ => is_upper c
  | EmptyString => false
  end.

(** [if not key[0].isupper(): raise SpaParseError(...)]: on the empty key
    it is [key[0]] that fails. *)
Definition key_error (key : string) : exception :=
  match key with
  | String _ _ => SpaParseError
  | EmptyString => IndexError
  end.

(** [spa.Vocabulary(dimensions=d, rng=r, max_similarity=1)] *)
Definition Vocabulary_new (d : nat) (r : rng_ref) : result Vocabulary :=
  if d =? 0 then Raise (Failure ValidationError Vocabulary_init)
  else Ok {| dimensions := d; rng := r; keys := []; pointers := ∅;
             vectors := [] |}.

(** [vocab.add(key, p)]: a key is added once. *)
Definition vocab_add (vocab : Vocabulary) (key : string) (p : list scalar)
  : result Vocabulary :=
  if negb (valid_key key) then Raise (Failure (key_error key) Vocabulary_add)
  else match pointers vocab !! key with
       | Some _ => Raise (Failure ValidationError Vocabulary_add)
       | None =>
           if length p =? dimensions vocab
           then Ok {| dimensions := dimensions vocab;
                      rng := rng vocab;
                      keys := keys vocab ++ [key];
                      pointers := <[key := p]> (pointers vocab);
                      vectors := vectors vocab ++ [p] |}
           else Raise (Failure ValueError Vocabulary_add)
       end.

(** [vocab[key]]: a key that is not there yet gets a fresh pointer. *)
Definition vocab_getitem (vocab : Vocabulary) (key : string)
  : M (list scalar * Vocabulary) :=
  if negb (valid_key key)
  then lift (Raise (Failure (key_error key) Vocabulary_getitem))
  else match pointers vocab !! key with
       | Some v => mret (v, vocab)
       | None =>
           p ← draw (rng vocab)
                 (create_pointer (dimensions vocab) (vectors vocab));
           vocab' ← lift (vocab_add vocab key p);
           mret (p, vocab')
       end.

(** [vocab.parse(text)] evaluates [text] as a Python expression whose names
    are looked up in the vocabulary.  The embedding covers the expressions
    [get_data] writes: names, [*], [+] and blanks, with [*] binding tighter
    than [+] and both associating to the left.  Any other text is reported
    as a syntax error. *)

Inductive token := TName (s : string) | TStar | TPlus.

Definition is_ident_char (c : ascii) : bool :=
  is_upper c || is_lower c || is_digit c || bool_decide (c = "_"%char).

Definition flush (acc : string) (ts : list token) : list token :=
  match acc with
  | EmptyString => ts
  | _ => TName acc :: ts
  end.

Fixpoint lex (acc : string) (s : string) : option (list token) :=
  match s with
  | EmptyString => Some (flush acc [])
  | String c s' =>
      if is_ident_char c then lex (acc +:+ String c EmptyString) s'
      else if bool_decide (c = " "%char) then flush acc <$> lex "" s'
      else if bool_decide (c = "*"%char)
           then (λ ts, flush acc (TStar :: ts)) <$> lex "" s'
      else if bool_decide (c = "+"%char)
           then (λ ts, flush acc (TPlus :: ts)) <$> lex "" s'
      else None
  end.

Inductive expr :=
  | EName (s : string)
  | EMul (a b : expr)
  | EAdd (a b : expr).

Definition mul_onto (prod : option expr) (e : expr) : expr :=
  match prod with None => e | Some p => EMul p e end.
Definition add_onto (sum : option expr) (e : expr) : expr :=
  match sum with None => e | Some s => EAdd s e end.

(** [sum] holds the terms closed by a [+] so far, [prod] the factors of the
    current term; [operand] says that a name has to come next. *)
Fixpoint parse_tokens (sum prod : option expr) (operand : bool)
    (ts : list token) : option expr :=
  match ts with
  | [] =>
      if operand then None else add_onto sum <$> prod
  | TName s :: ts' =>
      if operand then parse_tokens sum (Some (mul_onto prod (EName s))) false ts'
      else None
  | TStar :: ts' =>
      if operand then None else parse_tokens sum prod true ts'
  | TPlus :: ts' =>
      if operand then None
      else match prod with
           | Some p => parse_tokens (Some (add_onto sum p)) None true ts'
           | None => None
           end
  end.

Fixpoint eval (e : expr) (vocab : Vocabulary) : M (list scalar * Vocabulary) :=
  match e with
  | EName s => vocab_getitem vocab s
  | EMul a b =>
      '(x, vocab) ← eval a vocab;
      '(y, vocab) ← eval b vocab;
      mret (cconv x y, vocab)
  | EAdd a b =>
      '(x, vocab) ← eval a vocab;
      '(y, vocab) ← eval b vocab;
      mret (vadd x y, vocab)
  end.

Definition vocab_parse (vocab : Vocabulary) (text : string)
  : M (list scalar * Vocabulary) :=
  match lex "" text ≫= parse_tokens None None true with
  | None => lift (Raise (Failure SyntaxError Vocabulary_parse))
  | Some e => eval e vocab
  end.

(** *** Arrays written by [get_data] *)

Definition np_zeros (n0 n1 n2 : nat) : ndarray3 scalar :=
  Array3 (n0, n1, n2) (replicate n0 (replicate n1 (replicate n2 R0))).

(** [a[n, 0, :] = v]; a vector of length one is broadcast over the row. *)
Definition set_row (a : ndarray3 scalar) (n : nat) (v : list scalar)
  : result (ndarray3 scalar) :=
  let '(n0, n1, n2) := shape3 a in
  if (n <? n0) && (0 <? n1) then
    if length v =? n2
    then Ok (Array3 (n0, n1, n2) (alter (λ m, <[0 := v]> m) n (items3 a)))
    else if length v =? 1
    then Ok (Array3 (n0, n1, n2)
               (alter (λ m, <[0 := replicate n2 (nth 0 v R0)]> m) n (items3 a)))
    else Raise (Failure ValueError ndarray_setitem)
  else Raise (Failure IndexError ndarray_setitem).

(** *** get_data (spa-retrieval.ipynb) *)

(** [str(n)] *)
Definition str (n : nat) : string := NilZero.string_of_uint (Nat.to_uint n).

Definition role_name (n i : nat) : string :=
  "ROLE_" +:+ str n +:+ "_" +:+ str i.
Definition filler_name (n i : nat) : string :=
  "FILLER_" +:+ str n +:+ "_" +:+ str i.

Record dataset := {
  traces : ndarray3 scalar;
  cues : ndarray3 scalar;
  targets : ndarray3 scalar;
  vocab : Vocabulary
}.

(** The body of the loop, for item [n]. *)
Definition get_data_item (pairs_per_item : nat) (n : nat) (st : dataset)
  : M dataset :=
  let role_names := map (role_name n) (seq 0 pairs_per_item) in
  let filler_names := map (filler_name n) (seq 0 pairs_per_item) in
  let trace_key := "TRACE_" +:+ str n in
  '(trace_ptr, vocab) ←
    vocab_parse (vocab st)
      (String.concat "+"
         (map (λ '(x, y), x +:+ " * " +:+ y) (zip role_names filler_names)));
  let trace_ptr := normalize trace_ptr in
  vocab ← lift (vocab_add vocab trace_key trace_ptr);
  cue_idx ← rng_randint pairs_per_item;
  '(t, vocab) ← vocab_getitem vocab trace_key;
  traces ← lift (set_row (traces st) n t);
  '(c, vocab) ← vocab_getitem vocab (role_name n cue_idx);
  cues ← lift (set_row (cues st) n c);
  '(f, vocab) ← vocab_getitem vocab (filler_name n cue_idx);
  targets ← lift (set_row (targets st) n f);
  mret {| traces := traces; cues := cues; targets := targets; vocab := vocab |}.

Fixpoint for_each (body : nat → dataset → M dataset) (ns : list nat)
    (st : dataset) : M dataset :=
  match ns with
  | [] => mret st
  | n :: ns' => st' ← body n st; for_each body ns' st'
  end.

Definition get_data (n_items pairs_per_item vec_d : nat)
    (vocab_seed : option seed)
  : M dataset :=
  _ ← new_RandomState vocab_seed;
  vocab ← lift (Vocabulary_new vec_d LocalRng);
  for_each (get_data_item pairs_per_item) (seq 0 n_items)
    {| traces := np_zeros n_items 1 vec_d;
       cues := np_zeros n_items 1 vec_d;
       targets := np_zeros n_items 1 vec_d;
       vocab := vocab |}.

(** ** Notions the statements below are written with *)

Fixpoint all_ident (s : string) : bool :=
  match s with
  | EmptyString => true
  | String c s' => is_ident_char c && all_ident s'
  end.

Definition trace_key (n : nat) : string := "TRACE_" +:+ str n.

(** The tokens and the syntax tree of [x0 * y0+x1 * y1+...]. *)
Definition term_text (t : string * string) : string :=
  let '(x, y) := t in x +:+ " * " +:+ y.

Fixpoint term_tokens (ts : list (string * string)) : list token :=
  match ts with
  | [] => []
  | [(x, y)] => [TName x; TStar; TName y]
  | (x, y) :: ts' => TName x :: TStar :: TName y :: TPlus :: term_tokens ts'
  end.

Definition term_expr (t : string * string) : expr :=
  EMul (EName t.1) (EName t.2).

Definition sum_expr (t : string * string) (ts : list (string * string)) : expr :=
  fold_left (λ acc t, EAdd acc (term_expr t)) ts (term_expr t).

Definition name_like (s : string) : Prop := s ≠ "" ∧ all_ident s = true.

(** A vocabulary of dimension [d] that draws from the caller's generator. *)
Definition vocab_ok (d : nat) (v : Vocabulary) : Prop :=
  dimensions v = d ∧ rng v = LocalRng ∧
  (∀ k p, pointers v !! k = Some p → length p = d) ∧
  Forall (λ p, length p = d) (vectors v).

Fixpoint names (e : expr) : list string :=
  match e with
  | EName s => [s]
  | EMul a b | EAdd a b => names a ++ names b
  end.

(** The value of an expression, read off a table of pointers. *)
Fixpoint denote (m : gmap string (list scalar)) (e : expr)
  : option (list scalar) :=
  match e with
  | EName s => m !! s
  | EMul a b => x ← denote m a; y ← denote m b; Some (cconv x y)
  | EAdd a b => x ← denote m a; y ← denote m b; Some (vadd x y)
  end.

(** Superposition: the vectors of a non-empty list, added from the left. *)
Definition vsum (l : list (list scalar)) : list scalar :=
  match l with
  | [] => []
  | x :: xs => fold_left vadd xs x
  end.

Definition pair_names (n : nat) (j : nat) : string * string :=
  (role_name n j, filler_name n j).

Definition array_ok (n0 d : nat) (a : ndarray3 scalar) : Prop :=
  shape3 a = (n0, 1, d) ∧ wf3 a.

(** The trace of item [i] is the normalised superposition of its bound
    pairs: with [rs] and [fs] the vectors of its roles and fillers, the row
    [traces[i, 0, :]] is what the vocabulary holds under TRACE_i, and that
    is [normalize] of the sum of the circular convolutions. *)
Definition trace_ok (p : nat) (ds : dataset) (i : nat) : Prop :=
  ∃ rs fs,
    length rs = p ∧ length fs = p ∧
    (∀ j, j < p → pointers (vocab ds) !! role_name i j = Some (nth j rs [])) ∧
    (∀ j, j < p → pointers (vocab ds) !! filler_name i j = Some (nth j fs [])) ∧
    pointers (vocab ds) !! trace_key i = Some (row_at (traces ds) i 0) ∧
    row_at (traces ds) i 0 = normalize (vsum (zip_with cconv rs fs)).

(** The cue and the target of item [i] come from one pair [k] of the item:
    [cues[i, 0, :]] is the vector of ROLE_i_k and [targets[i, 0, :]] the
    vector of FILLER_i_k. *)
Definition cue_ok (p : nat) (ds : dataset) (i : nat) : Prop :=
  ∃ k, k < p ∧
    pointers (vocab ds) !! role_name i k = Some (row_at (cues ds) i 0) ∧
    pointers (vocab ds) !! filler_name i k = Some (row_at (targets ds) i 0).

Definition item_ok (p : nat) (ds : dataset) (i : nat) : Prop :=
  trace_ok p ds i ∧ cue_ok p ds i.

(** The state of the loop when items [0 .. m-1] are done. *)
Definition state_ok (p d n0 m : nat) (ds : dataset) : Prop :=
  array_ok n0 d (traces ds) ∧ array_ok n0 d (cues ds) ∧
  array_ok n0 d (targets ds) ∧ vocab_ok d (vocab ds) ∧
  (∀ i, m ≤ i → pointers (vocab ds) !! trace_key i = None) ∧
  (∀ i, i < m → item_ok p ds i).

(** [w] with another module-level generator and other entropy to come: what
    is outside the [RandomState] object. *)
Definition with_outside (g : RngState) (e : nat → seed) (w : World) : World :=
  {| np_random := g; rng_obj := rng_obj w; os_entropy := e |}.

Definition moved {A} (g : RngState) (e : nat → seed) (r : result (A * World))
  : result (A * World) :=
  match r with
  | Ok (a, w) => Ok (a, with_outside g e w)
  | Raise f => Raise f
  end.

Definition isolated {A} (m : M A) : Prop :=
  ∀ g e w, m (with_outside g e w) = moved g e (m w).

(** What a run returns to its caller, the world left aside. *)
Definition returned {A} (r : result (A * World)) : result A :=
  match r with
  | Ok (a, _) => Ok a
  | Raise f => Raise f
  end.

End GetData.

(** ** The simulator's life cycle in the three notebooks

    Every statement of the notebooks that creates, uses or closes a
    simulator is kept, in the order the cells run; model building, data
    preparation and plotting calls that do not touch a simulator are left
    out.  A program writes the trace of what happens to each simulator. *)

Module Lifecycle.

Inductive method :=
  | step | run_steps | run | predict | compile | fit | evaluate
  | save_params | load_params
  | trange          (* sim.trange() *)
  | data.           (* sim.data[probe] *)

Inductive event :=
  | Created (sim : nat)
  | Called (sim : nat) (m : method)
  | Closed (sim : nat).

Record sims := { next_sim : nat; trace : list event }.

Definition N (A : Type) : Type := sims → A * sims.

#[global] Instance N_ret : MRet N := λ A a s, (a, s).
#[global] Instance N_bind : MBind N := λ A B k m s,
  let '(a, s') := m s in k a s'.

Definition emit (e : event) : N unit := λ s,
  ((), {| next_sim := next_sim s; trace := trace s ++ [e] |}).

(** [nengo_dl.Simulator(...)] (or [nengo.Simulator(...)]): a new, open
    simulator. *)
Definition Simulator : N nat := λ s,
  (next_sim s,
   {| next_sim := S (next_sim s); trace := trace s ++ [Created (next_sim s)] |}).

Definition call (sim : nat) (m : method) : N unit := emit (Called sim m).
Definition close (sim : nat) : N unit := emit (Closed sim).

(** [with Simulator(...) as sim: body]: the simulator is closed when the
    block is left, and the name [sim] stays bound to it. *)
Definition with_Simulator (body : nat → N unit) : N nat :=
  sim ← Simulator; _ ← body sim; _ ← close sim; mret sim.

(** *** spa-retrieval.ipynb *)
Definition spa_retrieval (do_training : bool) : N unit :=
  (* with nengo_dl.Simulator(net, ...) as sim: sim.step(data=test_inputs) *)
  sim ← with_Simulator (λ sim, call sim step);
  (* print(..., accuracy(sim.data[out], test_vocab, test_targets)) *)
  _ ← call sim data;
  (* bars = plt.bar(..., np.dot(test_vocab.vectors, sim.data[out][0, 0])) *)
  _ ← call sim data;
  (* sim = nengo_dl.Simulator(net, minibatch_size=minibatch_size, seed=seed) *)
  sim ← Simulator;
  _ ← (if do_training
       then _ ← call sim compile; _ ← call sim fit; call sim save_params
       else call sim load_params);
  (* sim.step(data=test_inputs); print(... sim.data[out] ...); sim.close() *)
  _ ← call sim step;
  _ ← call sim data;
  _ ← close sim;
  (* bars = plt.bar(..., np.dot(test_vocab.vectors, sim.data[out][0, 0])) *)
  call sim data.

(** [plt.plot(sim.trange(), sim.data[p])] *)
Definition plot (sim : nat) : N unit :=
  _ ← call sim trange; call sim data.

(** *** from-tensorflow.ipynb *)
Definition from_tensorflow : N unit :=
  (* with ... as sim: out = sim.predict(np.ones(...)) *)
  sim ← with_Simulator (λ sim, call sim predict);
  (* with nengo_dl.Simulator(net) as sim: sim.run_steps(1000) *)
  sim ← with_Simulator (λ sim, call sim run_steps);
  _ ← plot sim; _ ← plot sim; _ ← plot sim;
  (* filtered_spikes = filt.filt(sim.data[p_spike]); plt.plot(sim.trange(), ...) *)
  _ ← call sim data; _ ← call sim trange;
  (* with nengo_dl.Simulator(net) as sim: data = sim.predict(n_steps=10) *)
  sim ← with_Simulator (λ sim, call sim predict);
  (* with ... as sim: compile, fit, evaluate, predict *)
  sim ← with_Simulator (λ sim,
    _ ← call sim compile; _ ← call sim fit; _ ← call sim evaluate;
    call sim predict);
  (* with nengo_dl.Simulator(net, seed=0) as sim: sim.run_steps(1000) *)
  sim ← with_Simulator (λ sim, call sim run_steps);
  _ ← plot sim; _ ← plot sim; _ ← plot sim;
  (* with nengo.Simulator(net, seed=0) as sim: sim.run_steps(1000) *)
  sim ← with_Simulator (λ sim, call sim run_steps);
  _ ← plot sim; _ ← plot sim; plot sim.

(** *** Integrating a Keras model into a Nengo network *)
Definition keras_model : N unit :=
  (* with nengo_dl.Simulator(net) as sim: sim.run(5.0) *)
  sim ← with_Simulator (λ sim, call sim run);
  _ ← plot sim;
  (* with ... as sim: sim.compile(...); sim.evaluate(...) *)
  sim ← with_Simulator (λ sim, _ ← call sim compile; call sim evaluate);
  (* with ... as sim: sim.compile(...); sim.fit(...); sim.evaluate(...) *)
  sim ← with_Simulator (λ sim,
    _ ← call sim compile; _ ← call sim fit; call sim evaluate);
  sim ← with_Simulator (λ sim,
    _ ← call sim compile; _ ← call sim fit; call sim evaluate);
  (* with nengo_dl.Simulator(converter.net, ...) as sim: compile, evaluate *)
  sim ← with_Simulator (λ sim, _ ← call sim compile; call sim evaluate);
  mret ().

Definition trace_of (prog : N unit) : list event :=
  trace (prog {| next_sim := 0; trace := [] |}).2.

(** *** The monitor

    [watched] picks the methods under watch; a watched call has to find its
    simulator created and not closed. *)
Fixpoint monitor (watched : method → bool) (opened : list nat)
    (tr : list event) : bool :=
  match tr with
  | [] => true
  | Created sim :: tr' => monitor watched (sim :: opened) tr'
  | Closed sim :: tr' =>
      monitor watched (filter (λ i, i ≠ sim) opened) tr'
  | Called sim m :: tr' =>
      (if watched m then bool_decide (sim ∈ opened) else true)
      && monitor watched opened tr'
  end.

(** The calls that run, train or evaluate the model. *)
Definition executes (m : method) : bool :=
  match m with
  | step | run_steps | run | predict | compile | fit | evaluate => true
  | _ => false
  end.

(** Those, and the two that read or write the parameters. *)
Definition needs_open (m : method) : bool :=
  match m with
  | trange | data => false
  | _ => true
  end.

(** Every method call; reading the attribute [sim.data] is not one. *)
Definition is_call (m : method) : bool :=
  match m with
  | data => false
  | _ => true
  end.

Definition calls (sim : nat) (ms : list method) : N unit :=
  foldr (λ m rest, _ ← call sim m; rest) (mret ()) ms.

End Lifecycle.

(** ** A model of the interface to run the definitions on

    The integers for scalars: *)
#[global] Program Instance Z_scalar : Scalar := {|
  scalar := Z;
  R0 := 0%Z;
  Radd := Z.add;
  Rmul := Z.mul;
  Rdiv := Z.div;
  Rsqrt := Z.sqrt;
  Rltb := Z.ltb;
  numpy_1_25 := true
|}.
Next Obligation. intros x. apply Z.ltb_irrefl. Qed.
Next Obligation. intros x y z. rewrite !Z.ltb_lt. lia. Qed.
Next Obligation. intros x y. rewrite !Z.ltb_ge. lia. Qed.

(** A linear congruential generator for the random draws. *)

Definition lcg (s : Z) : Z := ((1103515245 * s + 12345) mod 2147483648)%Z.

Definition lcg_vector (d : nat) (s : Z) : list Z :=
  map (λ i, ((lcg (s + Z.of_nat i) / 65536) mod 7 - 3)%Z) (seq 0 d).

#[global] Program Instance lcg_framework : Framework := {|
  seed := Z;
  RngState := Z;
  RandomState := λ s, s;
  randint := λ high s, (Z.to_nat ((lcg s / 65536) mod Z.of_nat high), lcg s);
  create_pointer := λ d _ s, (lcg_vector d s, lcg (s + Z.of_nat d))
|}.
Next Obligation.
  intros high s Hhigh. simpl.
  pose proof (Z.mod_pos_bound (lcg s / 65536) (Z.of_nat high)). lia.
Qed.
Next Obligation.
  intros d vs s. simpl. unfold lcg_vector. by rewrite length_map, length_seq.
Qed.

(** ** Inputs to run the definitions on *)

Definition world0 : World :=
  {| np_random := 5%Z; rng_obj := 7%Z;
     os_entropy := λ n, (11 + Z.of_nat n)%Z |}.

Definition two_vectors : Vocabulary :=
  {| dimensions := 2; rng := LocalRng; keys := ["A"; "B"];
     pointers := <["A" := [1; 0]%Z]> (<["B" := [0; 1]%Z]> ∅);
     vectors := [[1; 0]; [0; 1]]%Z |}.

Definition empty_vocabulary : Vocabulary :=
  {| dimensions := 2; rng := LocalRng; keys := []; pointers := ∅;
     vectors := [] |}.

Definition output2 : ndarray3 (@scalar Z_scalar) := Array3 (2, 1, 2) [[[3; 1]]; [[0; 2]]]%Z.
Definition targets2 : ndarray3 (@scalar Z_scalar) := Array3 (2, 1, 2) [[[1; 0]]; [[1; 0]]]%Z.
Definition no_items : ndarray3 (@scalar Z_scalar) := Array3 (0, 1, 2) [].

(** Two calls of [get_data] with the same arguments, one after the other. *)
Definition get_data_twice `{Framework} (n_items pairs_per_item vec_d : nat)
    (vocab_seed : option seed) : M (dataset * dataset) :=
  first ← get_data n_items pairs_per_item vec_d vocab_seed;
  second ← get_data n_items pairs_per_item vec_d vocab_seed;
  mret (first, second).

(** Two images of two rows and two columns. *)
Definition images2 : ndarray3 Z :=
  Array3 (2, 2, 2) [[[1; 2]; [3; 4]]; [[5; 6]; [7; 8]]]%Z.

(** ** More of the notebooks

    The cell of spa-retrieval that highlights the bar of the correct filler,
    the cells that add the time axis to the training data, and notions for the
    vocabulary that [get_data] returns. *)

Section MoreNotions.
Context `{Framework}.

(** [a[i, j]] on a three-dimensional array: one row. *)
Definition index_row (a : ndarray3 scalar) (i j : Z) : result (list scalar) :=
  let '(n0, n1, n2) := shape3 a in
  match py_index n0 i, py_index n1 j with
  | Some i', Some j' => Ok (nth j' (nth i' (items3 a) []) [])
  | _, _ => Raise (Failure IndexError ndarray_getitem)
  end.

(** [np.where(mask)[0][0]]: the first index that holds [True]. *)
Definition first_true (mask : list bool) : result nat :=
  match list_find (λ b, b = true) mask with
  | Some (i, _) => Ok i
  | None => Raise (Failure IndexError ndarray_getitem)
  end.

(** The index of the bar that the plotting cell colours red:
    [np.where(np.all(test_vocab.vectors == test_targets[0, 0], axis=1))[0][0]].
    The one-dimensional row is compared as an array of one row. *)
Definition highlighted (test_vocab : Vocabulary) (test_targets : ndarray3 scalar)
  : result nat :=
  t ← index_row test_targets 0 0;
  eq ← np_equal (vectors_array test_vocab)
         (Array2 (1, (shape3 test_targets).2) [t]);
  first_true (np_all_axis1 eq).

(** [x[:, None, :]]: a time axis of length one. *)
Definition add_time_axis (x : ndarray2 scalar) : ndarray3 scalar :=
  let '(n0, n1) := shape2 x in
  Array3 (n0, 1, n1) (map (λ r, [r]) (rows2 x)).

(** The keys that item [n] adds to the vocabulary, in the order in which it
    adds them, and the keys of the items before [m]. *)
Definition item_keys (p n : nat) : list string :=
  (seq 0 p ≫= λ j, [role_name n j; filler_name n j]) ++ [trace_key n].

Definition all_keys (p m : nat) : list string := seq 0 m ≫= item_keys p.

(** [keys] has no key twice, [vectors] stacks the pointers of [keys] in
    order, and every pointer has its key there. *)
Definition aligned (v : Vocabulary) : Prop :=
  NoDup (keys v) ∧
  Forall2 (λ k x, pointers v !! k = Some x) (keys v) (vectors v) ∧
  (∀ k, is_Some (pointers v !! k) → k ∈ keys v).

(** A vocabulary grows: what was there stays, new entries come last. *)
Definition grows (v v' : Vocabulary) : Prop :=
  pointers v ⊆ pointers v' ∧ keys v `prefix_of` keys v' ∧
  vectors v `prefix_of` vectors v'.

(** The keys after the names of an expression have been looked up in turn. *)
Definition add_new (ks : list string) (ns : list string) : list string :=
  fold_left (λ acc k, if decide (k ∈ acc) then acc else acc ++ [k]) ns ks.

(** The text that item [n] hands to [vocab.parse]. *)
Definition item_text (p n : nat) : string :=
  String.concat "+" (map term_text (map (pair_names n) (seq 0 p))).

Fixpoint all_digits (s : string) : bool :=
  match s with
  | EmptyString => true
  | String c s' => is_digit c && all_digits s'
  end.


End MoreNotions.

(** ** The image cells of the Keras notebook

    [train_images.reshape((train_images.shape[0], -1))] flattens the images,
    and the display loop reads [train_images[i].reshape((28, 28))].  These
    cells are outside any function; of a failure only the exception class is
    kept. *)

(** [x.reshape((x.shape[0], -1))]: numpy cannot infer the -1 next to a
    dimension of length 0. *)
Definition flatten_images {A} (x : ndarray3 A) : exception + ndarray2 A :=
  let '(n0, n1, n2) := shape3 x in
  if n0 =? 0 then inl ValueError
  else inr (Array2 (n0, n1 * n2) (map (@concat A) (items3 x))).

(** [a[i]] on a two-dimensional array. *)
Definition getitem_row {A} (a : ndarray2 A) (i : Z) : exception + list A :=
  match py_index (shape2 a).1 i with
  | None => inl IndexError
  | Some k => inr (nth k (rows2 a) [])
  end.

(** [v.reshape((r, c))] on a one-dimensional array, in row-major order. *)
Definition reshape_2d {A} (v : list A) (r c : nat) : exception + ndarray2 A :=
  if length v =? r * c
  then inr (Array2 (r, c) (map (λ k, take c (drop (k * c) v)) (seq 0 r)))
  else inl ValueError.

(** [x.reshape((x.shape[0], -1))[i].reshape((r, c))] *)
Definition shown_image {A} (x : ndarray3 A) (i : Z) (r c : nat)
  : exception + ndarray2 A :=
  match flatten_images x with
  | inl e => inl e
  | inr y =>
      match getitem_row y i with
      | inl e => inl e
      | inr v => reshape_2d v r c
      end
  end.

(** The simulators of a trace are used one after the other: a simulator is
    created when no other one is open, only an open simulator is closed, and
    at the end none is left open. *)
Fixpoint one_at_a_time (opened : list nat) (tr : list Lifecycle.event) : bool :=
  match tr with
  | [] => bool_decide (opened = [])
  | Lifecycle.Created sim :: tr' =>
      bool_decide (opened = []) && one_at_a_time [sim] tr'
  | Lifecycle.Closed sim :: tr' =>
      bool_decide (sim ∈ opened)
      && one_at_a_time (filter (λ i, i ≠ sim) opened) tr'
  | Lifecycle.Called _ _ :: tr' => one_at_a_time opened tr'
  end.

(** * Facts *)

(** ** Properties of the array operations *)

Section NumericFacts.
Context `{Scalar}.

Lemma Rltb_below x y z :
  Rltb x y = false → Rltb x z = true → Rltb y z = true.
Proof.
  intros Hxy Hxz. destruct (Rltb y z) eqn:Hyz; [done|].
  destruct (Rltb y x) eqn:Hyx.
  - by rewrite (Rltb_trans _ _ _ Hyx Hxz) in Hyz.
  - rewrite (Rltb_total _ _ Hxy Hyx) in Hxz. congruence.
Qed.

Lemma argmax_from_first_max pre best_i xs :
  first_max pre best_i →
  first_max (pre ++ xs)
    (argmax_from best_i (nth best_i pre R0) (length pre) xs).
Proof.
  revert pre best_i. induction xs as [|x xs IH]; intros pre b Hb; simpl.
  - by rewrite app_nil_r.
  - destruct Hb as (Hlt & Hmax & Hfirst).
    assert (Hpre : ∀ j, j < length pre →
              nth j (pre ++ [x]) R0 = nth j pre R0)
      by (intros; by apply app_nth1).
    assert (Hx : nth (length pre) (pre ++ [x]) R0 = x)
      by (rewrite app_nth2; [by rewrite Nat.sub_diag | lia]).
    assert (Hlen : length (pre ++ [x]) = S (length pre))
      by (rewrite length_app; simpl; lia).
    replace (pre ++ x :: xs) with ((pre ++ [x]) ++ xs)
      by (by rewrite <- app_assoc).
    destruct (Rltb (nth b pre R0) x) eqn:Hcmp.
    + specialize (IH (pre ++ [x]) (length pre)).
      rewrite Hx, Hlen in IH. apply IH. repeat split; rewrite ?Hlen.
      * lia.
      * intros j Hj. destruct (decide (j = length pre)) as [->|Hne].
        -- rewrite Hx. apply Rltb_irrefl.
        -- rewrite Hx, (Hpre j) by lia. specialize (Hmax j ltac:(lia)).
           destruct (Rltb x (nth j pre R0)) eqn:Hxj; [|done].
           by rewrite (Rltb_trans _ _ _ Hcmp Hxj) in Hmax.
      * intros j Hj. rewrite Hx, (Hpre j) by lia.
        apply Rltb_below with (x := nth b pre R0); [apply Hmax; lia | done].
    + specialize (IH (pre ++ [x]) b).
      rewrite Hpre, Hlen in IH by lia. apply IH. repeat split; rewrite ?Hlen.
      * lia.
      * intros j Hj. rewrite (Hpre b) by lia.
        destruct (decide (j = length pre)) as [->|Hne].
        -- by rewrite Hx.
        -- rewrite (Hpre j) by lia. apply Hmax. lia.
      * intros j Hj. rewrite (Hpre j), (Hpre b) by lia. by apply Hfirst.
Qed.

Lemma argmax_first_max xs : xs ≠ [] → first_max xs (argmax xs).
Proof.
  destruct xs as [|x xs]; [done|]. intros _.
  apply (argmax_from_first_max [x] 0 xs).
  repeat split; simpl; try lia.
  intros [|j] ?; [apply Rltb_irrefl | simpl in *; lia].
Qed.

Lemma first_max_unique xs k k' : first_max xs k → first_max xs k' → k = k'.
Proof.
  intros (Hk & Hmax & Hfirst) (Hk' & Hmax' & Hfirst').
  destruct (Nat.lt_trichotomy k k') as [Hlt|[->|Hlt]]; [|done|].
  - specialize (Hfirst' k Hlt). by rewrite Hmax in Hfirst'.
  - specialize (Hfirst k' Hlt). by rewrite Hmax' in Hfirst.
Qed.

Lemma map_nth_seq {A} (d : A) (l : list A) :
  map (λ j, nth j l d) (seq 0 (length l)) = l.
Proof.
  induction l as [|x l IH]; [done|]. simpl. f_equal.
  rewrite <- seq_shift, map_map. exact IH.
Qed.

Lemma map_seq_ext {A} (f g : nat → A) (n : nat) :
  (∀ i, i < n → f i = g i) → map f (seq 0 n) = map g (seq 0 n).
Proof.
  intros Hfg. apply map_ext_in. intros i Hi. apply in_seq in Hi.
  apply Hfg. lia.
Qed.

Lemma nth_map_lt {A B} (f : A → B) (l : list A) (i : nat) (da : A) (db : B) :
  i < length l → nth i (map f l) db = f (nth i l da).
Proof.
  intros Hi. rewrite (nth_indep _ db (f da)) by (by rewrite length_map).
  apply map_nth.
Qed.

Lemma nth_map_seq {A} (f : nat → A) (n i : nat) (d : A) :
  i < n → nth i (map f (seq 0 n)) d = f i.
Proof.
  intros Hi. rewrite (nth_map_lt f _ i 0) by (by rewrite length_seq).
  by rewrite seq_nth.
Qed.

Lemma broadcast_dim_same n : broadcast_dim n n = Some n.
Proof. unfold broadcast_dim. by rewrite Nat.eqb_refl. Qed.

Lemma broadcast_dim_one_r a : broadcast_dim a 1 = Some a.
Proof.
  unfold broadcast_dim. destruct (Nat.eqb_spec a 1) as [->|Hne]; [done|].
  by rewrite Nat.eqb_refl.
Qed.

Lemma broadcast_idx_lt len i : i < len → broadcast_idx len i = i.
Proof.
  unfold broadcast_idx. intros Hi.
  destruct (Nat.eqb_spec len 1); [lia | done].
Qed.

(** Comparing two rows of the same length column by column decides their
    equality. *)
Lemma all_columns_equal (p t : list scalar) (d : nat) :
  length p = d → length t = d →
  forallb id (map (λ j, bool_decide (nth j p R0 = nth j t R0)) (seq 0 d))
  = bool_decide (p = t).
Proof.
  intros Hp Ht. destruct (decide (p = t)) as [->|Hne].
  - rewrite bool_decide_eq_true_2 by done.
    apply forallb_forall. intros b Hb. apply in_map_iff in Hb.
    destruct Hb as (j & <- & _). by apply bool_decide_eq_true_2.
  - rewrite (bool_decide_eq_false_2 _ Hne).
    destruct (forallb id _) eqn:Hall; [|done]. exfalso. apply Hne.
    rewrite <- (map_nth_seq R0 p), <- (map_nth_seq R0 t), Hp, Ht.
    apply map_seq_ext. intros j Hj.
    rewrite forallb_forall in Hall.
    specialize (Hall (bool_decide (nth j p R0 = nth j t R0))).
    eapply bool_decide_eq_true_1.
    apply Hall, in_map_iff. exists j. split; [done|]. apply in_seq. lia.
Qed.

Lemma count_true_le l : count_true l ≤ length l.
Proof. unfold count_true. apply length_filter. Qed.

End NumericFacts.

(** ** What [accuracy] computes *)

Section AccuracyFacts.
Context `{Scalar}.

Lemma wf3_row (a : ndarray3 scalar) b s d i j :
  shape3 a = (b, s, d) → wf3 a → i < b → j < s →
  length (row_at a i j) = d.
Proof.
  intros Hs [Hlen Hall] Hi Hj. rewrite Hs in *. simpl in *.
  rewrite Forall_forall in Hall.
  assert (Hin : In (nth i (items3 a) []) (items3 a))
    by (apply nth_In; lia).
  apply list_elem_of_In, Hall in Hin. destruct Hin as [Hl Hrows].
  rewrite Forall_forall in Hrows. apply Hrows, list_elem_of_In, nth_In. lia.
Qed.

Lemma py_index_lt len t j : py_index len t = Some j → j < len.
Proof.
  unfold py_index. repeat case_bool_decide; intros [= <-]; lia.
Qed.

Lemma argmax_lt xs : xs ≠ [] → argmax xs < length xs.
Proof. intros Hne. by destruct (argmax_first_max xs Hne). Qed.

(** Column [i] of the transpose is row [i]. *)
Lemma column_transpose (rows : list (list scalar)) b d i :
  wf_rows b d rows → i < b →
  column R0 i (map (λ j, column R0 j rows) (seq 0 d)) = nth i rows [].
Proof.
  intros [Hlen Hall] Hi. unfold column. rewrite map_map.
  assert (Hd : length (nth i rows []) = d).
  { rewrite Forall_forall in Hall. apply Hall, list_elem_of_In, nth_In. lia. }
  etrans; [|apply (map_nth_seq R0)]. rewrite Hd.
  apply map_seq_ext. intros j Hj.
  by rewrite (nth_map_lt _ rows i []) by lia.
Qed.

(** Column [i] of the matrix of similarities. *)
Lemma column_products (vs : list (list scalar)) (f : nat → list scalar) b i :
  i < b →
  column R0 i (map (λ r, map (λ i0, dot r (f i0)) (seq 0 b)) vs)
  = map (λ r, dot r (f i)) vs.
Proof.
  intros Hi. unfold column. rewrite map_map. apply map_ext. intros r.
  by apply (nth_map_seq (λ i0, dot r (f i0))).
Qed.

Lemma wf3_step (a : ndarray3 scalar) b s d j :
  shape3 a = (b, s, d) → wf3 a → j < s →
  wf_rows b d (map (λ m, nth j m []) (items3 a)).
Proof.
  intros Hs [Hlen Hall] Hj. rewrite Hs in *. simpl in *. split.
  - by rewrite length_map.
  - rewrite Forall_forall in Hall. apply Forall_forall. intros r Hr.
    apply list_elem_of_In, in_map_iff in Hr. destruct Hr as (m & <- & Hm).
    apply list_elem_of_In, Hall in Hm. destruct Hm as [Hl Hrows].
    rewrite Forall_forall in Hrows. apply Hrows, list_elem_of_In, nth_In. lia.
Qed.

Lemma row_at_step (a : ndarray3 scalar) b s d i j :
  shape3 a = (b, s, d) → wf3 a → i < b →
  nth i (map (λ m, nth j m []) (items3 a)) [] = row_at a i j.
Proof.
  intros Hs [Hlen _] Hi. rewrite Hs in Hlen. simpl in Hlen.
  unfold row_at. by rewrite (nth_map_lt _ _ i []) by lia.
Qed.

Lemma accuracy_value output vocab targets t b s d ts j :
  shape3 output = (b, s, d) → wf3 output →
  shape3 targets = (b, ts, d) → wf3 targets → 0 < ts →
  dimensions vocab = d →
  Forall (λ v, length v = d) (vectors vocab) →
  vectors vocab ≠ [] →
  py_index s t = Some j →
  accuracy output vocab targets t =
    Ok (np_mean
          (map (λ i,
             bool_decide
               (nth (argmax (similarities vocab (row_at output i j)))
                    (vectors vocab) []
                = row_at targets i 0))
             (seq 0 b))).
Proof.
  intros Hso Hwo Hst Hwt Hts Hd Hvs Hne Hj.
  assert (Hjs := py_index_lt _ _ _ Hj).
  assert (Hk : length (vectors vocab) ≠ 0) by (by destruct (vectors vocab)).
  unfold accuracy, index_axis1. rewrite Hso, Hj. simpl.
  unfold np_dot, T, vectors_array. simpl.
  rewrite Hd, bool_decide_eq_true_2 by done. simpl.
  unfold np_argmax_axis0. simpl.
  destruct (Nat.eqb_spec (length (vectors vocab)) 0) as [H0|_]; [done|].
  simpl.
  (* the indices are the arg-max of each item's similarities *)
  rewrite (map_seq_ext _
    (λ i, argmax (similarities vocab (row_at output i j))) b); last first.
  { intros i Hi. rewrite column_products by done.
    rewrite (column_transpose _ b d) by eauto using wf3_step.
    by rewrite (row_at_step _ b s d). }
  unfold take_rows. simpl.
  rewrite (proj2 (forallb_forall _ _)); last first.
  { intros k Hk'. apply in_map_iff in Hk'. destruct Hk' as (i & <- & _).
    apply Nat.ltb_lt.
    pose proof (argmax_lt (similarities vocab (row_at output i j))) as Hlt.
    unfold similarities in *. rewrite length_map in Hlt. apply Hlt.
    by destruct (vectors vocab). }
  simpl. rewrite Hst.
  assert (H0 : py_index ts 0 = Some 0).
  { unfold py_index. rewrite bool_decide_eq_true_2 by lia. done. }
  rewrite H0. simpl. unfold np_equal. simpl.
  rewrite length_map, length_seq, !broadcast_dim_same. simpl.
  do 2 f_equal. unfold np_all_axis1. simpl. rewrite map_map.
  apply map_seq_ext. intros i Hi.
  rewrite (map_seq_ext _ (λ c,
    bool_decide
      (nth c (nth (argmax (similarities vocab (row_at output i j)))
                  (vectors vocab) []) R0
       = nth c (row_at targets i 0) R0)) d); last first.
  { intros c Hc. rewrite !broadcast_idx_lt by done.
    rewrite map_map, (nth_map_seq _ b i) by done.
    by rewrite (row_at_step _ b ts d). }
  apply all_columns_equal.
  - rewrite Forall_forall in Hvs. apply Hvs, list_elem_of_In, nth_In.
    pose proof (argmax_lt (similarities vocab (row_at output i j))) as Hlt.
    unfold similarities in *. rewrite length_map in Hlt. apply Hlt.
    by destruct (vectors vocab).
  - by apply (wf3_row _ b ts d).
Qed.

End AccuracyFacts.

(** ** The text that [get_data] hands to [parse] *)

Section TextFacts.

Lemma append_cons c (a b : string) : String c a +:+ b = String c (a +:+ b).
Proof. done. Qed.

Lemma append_empty_l (a : string) : "" +:+ a = a.
Proof. done. Qed.

Lemma append_assoc (a b c : string) : (a +:+ b) +:+ c = a +:+ (b +:+ c).
Proof.
  induction a as [|x a IH]; [done|]. by rewrite !append_cons, IH.
Qed.

Lemma append_empty_r (a : string) : a +:+ "" = a.
Proof. induction a as [|x a IH]; [done|]. by rewrite append_cons, IH. Qed.

Lemma all_ident_append a b :
  all_ident (a +:+ b) = all_ident a && all_ident b.
Proof.
  induction a as [|x a IH]; [done|]. rewrite append_cons. simpl.
  by rewrite IH, andb_assoc.
Qed.

(** The lexer reads a run of name characters into its accumulator. *)
Lemma lex_ident acc w s :
  all_ident w = true → lex acc (w +:+ s) = lex (acc +:+ w) s.
Proof.
  revert acc. induction w as [|c w IH]; intros acc Hw.
  - by rewrite append_empty_l, append_empty_r.
  - simpl in Hw. apply andb_true_iff in Hw as [Hc Hw].
    rewrite append_cons. simpl. rewrite Hc, IH by done.
    by rewrite append_assoc.
Qed.

Lemma digits_ident d : all_ident (NilEmpty.string_of_uint d) = true.
Proof. induction d; simpl; by rewrite ?IHd. Qed.

Lemma str_ident n : all_ident (str n) = true.
Proof.
  unfold str, NilZero.string_of_uint.
  destruct (Nat.to_uint n) eqn:E; try done; rewrite <- E; apply digits_ident.
Qed.

Lemma to_uint_nonnil n : Nat.to_uint n ≠ Decimal.Nil.
Proof.
  rewrite <- (Unsigned.of_to n) at 1. rewrite Unsigned.to_of.
  apply DecimalFacts.unorm_nonnil.
Qed.

(** [str] is one-to-one: two items never share a name. *)
Lemma str_inj n m : str n = str m → n = m.
Proof.
  unfold str. intros E. apply Unsigned.to_uint_inj.
  pose proof (NilZero.usu _ (to_uint_nonnil n)) as Hn.
  pose proof (NilZero.usu _ (to_uint_nonnil m)) as Hm.
  rewrite E in Hn. congruence.
Qed.

Lemma trace_key_inj n m : trace_key n = trace_key m → n = m.
Proof. unfold trace_key. simpl. intros [= E]. by apply str_inj. Qed.

Lemma role_name_ident n i : all_ident (role_name n i) = true.
Proof.
  unfold role_name. rewrite !all_ident_append, !str_ident. done.
Qed.

Lemma filler_name_ident n i : all_ident (filler_name n i) = true.
Proof.
  unfold filler_name. rewrite !all_ident_append, !str_ident. done.
Qed.

Lemma flush_name s ts : s ≠ "" → flush s ts = TName s :: ts.
Proof. by destruct s. Qed.

(** One term [x * y], followed by the rest of the text. *)
Lemma lex_term x y rest :
  name_like x → name_like y →
  lex "" (x +:+ " * " +:+ (y +:+ rest))
  = (λ ts, TName x :: TStar :: ts) <$> lex y rest.
Proof.
  intros [Hx Hxi] [Hy Hyi].
  rewrite lex_ident, append_empty_l by done.
  rewrite !append_cons, append_empty_l. simpl.
  rewrite lex_ident, append_empty_l by done.
  destruct (lex y rest); simpl; by rewrite ?flush_name.
Qed.

Lemma lex_last y : name_like y → lex y "" = Some [TName y].
Proof. intros [Hy _]. simpl. by rewrite flush_name. Qed.

Lemma lex_plus y rest :
  name_like y →
  lex y ("+" +:+ rest) = (λ ts, TName y :: TPlus :: ts) <$> lex "" rest.
Proof.
  intros [Hy _]. rewrite append_cons, append_empty_l. simpl.
  destruct (lex "" rest); simpl; by rewrite ?flush_name.
Qed.

Lemma lex_terms (ts : list (string * string)) :
  Forall (λ t, name_like t.1 ∧ name_like t.2) ts →
  lex "" (String.concat "+" (map term_text ts)) = Some (term_tokens ts).
Proof.
  induction ts as [|[x y] ts IH]; intros Hts; [done|].
  apply Forall_cons in Hts as [[Hx Hy] Hts]. simpl in Hx, Hy.
  specialize (IH Hts).
  destruct ts as [|t ts].
  - change (lex "" (x +:+ " * " +:+ y) = Some [TName x; TStar; TName y]).
    rewrite <- (append_empty_r y) at 1.
    by rewrite lex_term, lex_last.
  - change (lex ""
              ((x +:+ " * " +:+ y) +:+ "+" +:+
               String.concat "+" (map term_text (t :: ts)))
            = Some (TName x :: TStar :: TName y :: TPlus
                      :: term_tokens (t :: ts))).
    rewrite !append_assoc.
    by rewrite lex_term, lex_plus, IH.
Qed.

Lemma parse_terms sum t ts :
  parse_tokens sum None true (term_tokens (t :: ts))
  = Some (fold_left (λ acc t, EAdd acc (term_expr t)) ts
            (add_onto sum (term_expr t))).
Proof.
  revert sum t. induction ts as [|t' ts IH]; intros sum [x y].
  - done.
  - change (term_tokens ((x, y) :: t' :: ts))
      with (TName x :: TStar :: TName y :: TPlus :: term_tokens (t' :: ts)).
    remember (term_tokens (t' :: ts)) as toks eqn:E.
    simpl. subst toks. by rewrite IH.
Qed.

Lemma parse_text t ts :
  Forall (λ t, name_like t.1 ∧ name_like t.2) (t :: ts) →
  lex "" (String.concat "+" (map term_text (t :: ts)))
    ≫= parse_tokens None None true
  = Some (sum_expr t ts).
Proof.
  intros Hts. rewrite lex_terms by done. simpl mbind.
  apply (parse_terms None).
Qed.

End TextFacts.

(** ** The vocabulary as [get_data] uses it *)

Section VocabularyFacts.
Context `{Framework}.

Lemma length_vadd a b d : length a = d → length b = d → length (vadd a b) = d.
Proof. intros Ha Hb. unfold vadd. rewrite length_zip_with. lia. Qed.

Lemma length_cconv a b : length (cconv a b) = length a.
Proof. unfold cconv. by rewrite length_map, length_seq. Qed.

Lemma length_normalize v : length (normalize v) = length v.
Proof. unfold normalize. case_match; [by rewrite length_map | done]. Qed.

Lemma Vocabulary_new_ok d :
  0 < d → ∃ v, Vocabulary_new d LocalRng = Ok v ∧ vocab_ok d v ∧
               pointers v = ∅.
Proof.
  intros Hd. unfold Vocabulary_new.
  destruct (Nat.eqb_spec d 0); [lia|]. eexists. split; [done|].
  repeat split; simpl; [|done]. intros k p. by rewrite lookup_empty.
Qed.

Lemma vocab_add_ok d v key p :
  vocab_ok d v → valid_key key = true → pointers v !! key = None →
  length p = d →
  ∃ v', vocab_add v key p = Ok v' ∧ vocab_ok d v' ∧
        pointers v' = <[key := p]> (pointers v).
Proof.
  intros (Hd & Hr & Hp & Hv) Hkey Hnone Hlen. unfold vocab_add.
  rewrite Hkey, Hnone. simpl. rewrite Hd, Hlen, Nat.eqb_refl.
  eexists. split; [done|]. split; [|done]. repeat split; simpl; try done.
  - intros k q. rewrite lookup_insert. case_decide; [|by apply Hp].
    by intros [= <-].
  - apply Forall_app. split; [done|]. by apply Forall_singleton.
Qed.

Lemma vocab_getitem_present v key p w :
  valid_key key = true → pointers v !! key = Some p →
  vocab_getitem v key w = Ok ((p, v), w).
Proof. intros Hkey Hp. unfold vocab_getitem. by rewrite Hkey, Hp. Qed.

Lemma vocab_getitem_ok d v key w :
  vocab_ok d v → valid_key key = true →
  ∃ p v' w', vocab_getitem v key w = Ok ((p, v'), w') ∧
    vocab_ok d v' ∧ pointers v ⊆ pointers v' ∧
    pointers v' !! key = Some p ∧ length p = d ∧
    (∀ k, k ≠ key → pointers v' !! k = pointers v !! k).
Proof.
  intros Hok Hkey. destruct (pointers v !! key) as [p|] eqn:Hp.
  - exists p, v, w. rewrite (vocab_getitem_present _ _ p) by done.
    pose proof Hok as (? & ? & Hlen & ?).
    repeat split; try done. by eapply Hlen.
  - unfold vocab_getitem. rewrite Hkey, Hp. simpl.
    unfold mbind, M_bind, draw. destruct Hok as (Hd & Hr & Hlen & Hv).
    rewrite Hr, Hd.
    destruct (create_pointer d (vectors v) (rng_obj w)) as [p s] eqn:Hcp.
    assert (Hpl : length p = d).
    { pose proof (create_pointer_length d (vectors v) (rng_obj w)) as Hl.
      by rewrite Hcp in Hl. }
    destruct (vocab_add_ok d v key p) as (v' & Hadd & Hok' & Hptr);
      [done..|].
    unfold lift. rewrite Hadd. simpl.
    eexists p, v', _. split; [done|]. rewrite Hptr.
    split; [done|]. split; [by apply insert_subseteq|].
    split; [by rewrite lookup_insert_eq|]. split; [done|].
    intros k Hk. by rewrite lookup_insert_ne.
Qed.

(** *** Evaluation of a parsed expression *)

Lemma denote_mono m m' e val :
  m ⊆ m' → denote m e = Some val → denote m' e = Some val.
Proof.
  intros Hsub. revert val.
  induction e as [s|a IHa b IHb|a IHa b IHb]; intros val; simpl.
  - intros Hs. by eapply lookup_weaken.
  - destruct (denote m a) as [x|]; [|done].
    destruct (denote m b) as [y|]; [|done].
    by rewrite (IHa x), (IHb y).
  - destruct (denote m a) as [x|]; [|done].
    destruct (denote m b) as [y|]; [|done].
    by rewrite (IHa x), (IHb y).
Qed.

Lemma eval_ok d e : ∀ v w,
  vocab_ok d v → Forall (λ k, valid_key k = true) (names e) →
  ∃ val v' w', eval e v w = Ok ((val, v'), w') ∧
    vocab_ok d v' ∧ pointers v ⊆ pointers v' ∧
    denote (pointers v') e = Some val ∧ length val = d ∧
    (∀ k, k ∉ names e → pointers v' !! k = pointers v !! k).
Proof.
  induction e as [s|a IHa b IHb|a IHa b IHb]; intros v w Hok Hkeys;
    simpl in Hkeys.
  - rewrite Forall_singleton in Hkeys.
    destruct (vocab_getitem_ok d v s w Hok Hkeys)
      as (p & v' & w' & Hget & Hok' & Hsub & Hp & Hlen & Hother).
    exists p, v', w'. simpl. split_and!; try done.
    intros k Hk. apply Hother. set_solver.
  - apply Forall_app in Hkeys as [Hka Hkb].
    destruct (IHa v w Hok Hka)
      as (x & v1 & w1 & Ha & Hok1 & Hsub1 & Hx & Hlx & Ho1).
    destruct (IHb v1 w1 Hok1 Hkb)
      as (y & v2 & w2 & Hb & Hok2 & Hsub2 & Hy & Hly & Ho2).
    exists (cconv x y), v2, w2. simpl. unfold mbind at 1, M_bind.
    rewrite Ha. unfold mbind at 1, M_bind. rewrite Hb.
    split_and!; try done.
    + by trans (pointers v1).
    + by rewrite (denote_mono _ _ _ _ Hsub2 Hx), Hy.
    + by rewrite length_cconv.
    + intros k Hk. rewrite Ho2, Ho1; [done|set_solver..].
  - apply Forall_app in Hkeys as [Hka Hkb].
    destruct (IHa v w Hok Hka)
      as (x & v1 & w1 & Ha & Hok1 & Hsub1 & Hx & Hlx & Ho1).
    destruct (IHb v1 w1 Hok1 Hkb)
      as (y & v2 & w2 & Hb & Hok2 & Hsub2 & Hy & Hly & Ho2).
    exists (vadd x y), v2, w2. simpl. unfold mbind at 1, M_bind.
    rewrite Ha. unfold mbind at 1, M_bind. rewrite Hb.
    split_and!; try done.
    + by trans (pointers v1).
    + by rewrite (denote_mono _ _ _ _ Hsub2 Hx), Hy.
    + by apply length_vadd.
    + intros k Hk. rewrite Ho2, Ho1; [done|set_solver..].
Qed.

End VocabularyFacts.

(** ** What [get_data] builds *)

Section GetDataFacts.
Context `{Framework}.

Lemma bind_ok {A B} (m : M A) (k : A → M B) w a w' :
  m w = Ok (a, w') → (m ≫= k) w = k a w'.
Proof. intros Hm. unfold mbind, M_bind. by rewrite Hm. Qed.

Lemma lift_ok {A} (r : result A) a w : r = Ok a → lift r w = Ok (a, w).
Proof. by intros ->. Qed.

(** *** Names *)

Lemma zip_names n l :
  zip (map (role_name n) l) (map (filler_name n) l) = map (pair_names n) l.
Proof. induction l as [|j l IH]; [done|]. simpl. by rewrite IH. Qed.

Lemma role_name_key n j : valid_key (role_name n j) = true.
Proof. done. Qed.

Lemma filler_name_key n j : valid_key (filler_name n j) = true.
Proof. done. Qed.

Lemma trace_key_key n : valid_key (trace_key n) = true.
Proof. done. Qed.

Lemma role_name_not_trace n j i : role_name n j ≠ trace_key i.
Proof. done. Qed.

Lemma filler_name_not_trace n j i : filler_name n j ≠ trace_key i.
Proof. done. Qed.

Lemma role_name_like n j : name_like (role_name n j).
Proof. split; [done | apply role_name_ident]. Qed.

Lemma filler_name_like n j : name_like (filler_name n j).
Proof. split; [done | apply filler_name_ident]. Qed.

(** *** The parsed sum of terms *)

Lemma names_fold (P : string → Prop) ts e0 :
  Forall P (names e0) → Forall (λ t, P t.1 ∧ P t.2) ts →
  Forall P (names (fold_left (λ acc t, EAdd acc (term_expr t)) ts e0)).
Proof.
  revert e0. induction ts as [|t ts IH]; intros e0 He0 Hts; [done|].
  apply Forall_cons in Hts as [[H1 H2] Hts]. simpl. apply IH; [|done].
  simpl. rewrite Forall_app. split; [done|].
  apply Forall_cons. split; [done|]. by apply Forall_singleton.
Qed.

Lemma names_sum (P : string → Prop) t ts :
  Forall (λ t, P t.1 ∧ P t.2) (t :: ts) → Forall P (names (sum_expr t ts)).
Proof.
  intros Hts. apply Forall_cons in Hts as [[H1 H2] Hts].
  apply names_fold; [|done].
  apply Forall_cons. split; [done|]. by apply Forall_singleton.
Qed.

Lemma denote_fold m ts e0 val :
  denote m (fold_left (λ acc t, EAdd acc (term_expr t)) ts e0) = Some val →
  ∃ v0 rs fs,
    denote m e0 = Some v0 ∧
    Forall2 (λ t r, m !! t.1 = Some r) ts rs ∧
    Forall2 (λ t f, m !! t.2 = Some f) ts fs ∧
    val = fold_left vadd (zip_with cconv rs fs) v0.
Proof.
  revert e0 val. induction ts as [|t ts IH]; intros e0 val Hval.
  - exists val, [], []. by repeat constructor.
  - simpl in Hval. apply IH in Hval as (v0 & rs & fs & He & Hrs & Hfs & ->).
    simpl in He.
    destruct (denote m e0) as [x|]; [|done]. simpl in He.
    destruct (m !! t.1) as [r|] eqn:Hr; [|done]. simpl in He.
    destruct (m !! t.2) as [f|] eqn:Hf; [|done]. simpl in He.
    injection He as <-.
    exists x, (r :: rs), (f :: fs). split_and!; try done; by constructor.
Qed.

Lemma denote_sum m t ts val :
  denote m (sum_expr t ts) = Some val →
  ∃ rs fs,
    Forall2 (λ t r, m !! t.1 = Some r) (t :: ts) rs ∧
    Forall2 (λ t f, m !! t.2 = Some f) (t :: ts) fs ∧
    val = vsum (zip_with cconv rs fs).
Proof.
  intros Hval. apply denote_fold in Hval as (v0 & rs & fs & He & Hrs & Hfs & ->).
  simpl in He.
  destruct (m !! t.1) as [r|] eqn:Hr; [|done]. simpl in He.
  destruct (m !! t.2) as [f|] eqn:Hf; [|done]. simpl in He.
  injection He as <-.
  exists (r :: rs), (f :: fs). split_and!; try done; by constructor.
Qed.

Lemma Forall2_map_seq {A B} (P : A → B → Prop) (h : nat → A) p (l : list B) d :
  Forall2 P (map h (seq 0 p)) l →
  length l = p ∧ ∀ j, j < p → P (h j) (nth j l d).
Proof.
  intros HF. pose proof (Forall2_length _ _ _ HF) as Hlen.
  rewrite length_map, length_seq in Hlen. split; [done|]. intros j Hj.
  destruct (lookup_lt_is_Some_2 l j) as [y Hy]; [lia|].
  rewrite (nth_lookup_Some _ _ _ _ Hy).
  eapply Forall2_lookup_lr; [exact HF| |exact Hy].
  rewrite list_lookup_fmap, lookup_seq_lt by done. done.
Qed.

(** *** The arrays *)

Lemma np_zeros_ok n0 d : array_ok n0 d (np_zeros n0 1 d).
Proof.
  split; [done|]. split; simpl.
  - by rewrite length_replicate.
  - apply Forall_replicate. split; simpl; [done|].
    apply Forall_singleton. by rewrite length_replicate.
Qed.

Lemma set_row_ok n0 d a n v :
  array_ok n0 d a → n < n0 → length v = d →
  ∃ a', set_row a n v = Ok a' ∧ array_ok n0 d a' ∧
        row_at a' n 0 = v ∧
        (∀ i, i ≠ n → row_at a' i 0 = row_at a i 0).
Proof.
  intros [Hs [Hlen Hall]] Hn Hv. unfold set_row. rewrite Hs in *.
  simpl in Hlen, Hall.
  destruct (Nat.ltb_spec n n0); [|lia]. simpl.
  rewrite Hv, Nat.eqb_refl.
  destruct (lookup_lt_is_Some_2 (items3 a) n) as [m Hm]; [lia|].
  assert (Hwm : wf_rows 1 d m).
  { rewrite Forall_forall in Hall. apply Hall. by eapply list_elem_of_lookup_2. }
  eexists. split; [done|]. split_and!.
  - split; [done|]. split; simpl.
    + by rewrite length_alter.
    + apply Forall_alter; [done|]. intros m' Hm'.
      assert (m' = m) as -> by congruence.
      destruct Hwm as [Hl Hr]. split.
      * by rewrite length_insert.
      * apply Forall_insert; done.
  - unfold row_at. simpl.
    rewrite (nth_lookup_Some _ _ _ (<[0:=v]> m)).
    + destruct Hwm as [Hl _]. destruct m; [done|]. done.
    + by rewrite list_lookup_alter_eq, Hm.
  - intros i Hi. unfold row_at. simpl.
    rewrite !nth_lookup. by rewrite list_lookup_alter_ne.
Qed.

(** *** One item *)

Lemma item_ok_mono p ds ds' i :
  item_ok p ds i →
  pointers (vocab ds) ⊆ pointers (vocab ds') →
  row_at (traces ds') i 0 = row_at (traces ds) i 0 →
  row_at (cues ds') i 0 = row_at (cues ds) i 0 →
  row_at (targets ds') i 0 = row_at (targets ds) i 0 →
  item_ok p ds' i.
Proof.
  intros [(rs & fs & Hrs & Hfs & Hr & Hf & Ht & Hsum) (k & Hk & Hc & Hg)]
    Hsub Et Ec Eg.
  unfold item_ok, trace_ok, cue_ok. rewrite Et, Ec, Eg. split.
  - exists rs, fs. split_and!; try done.
    + intros j Hj. eapply lookup_weaken; [by apply Hr | done].
    + intros j Hj. eapply lookup_weaken; [by apply Hf | done].
    + by eapply lookup_weaken.
  - exists k. split_and!; [done | by eapply lookup_weaken..].
Qed.

Lemma pair_names_like n l :
  Forall (λ t, name_like t.1 ∧ name_like t.2) (map (pair_names n) l).
Proof.
  apply Forall_forall. intros t Ht. apply list_elem_of_fmap in Ht as (j & -> & _).
  split; [apply role_name_like | apply filler_name_like].
Qed.

Lemma pair_names_keys n l :
  Forall (λ t, (valid_key t.1 = true ∧ ∀ i, t.1 ≠ trace_key i) ∧
               (valid_key t.2 = true ∧ ∀ i, t.2 ≠ trace_key i))
         (map (pair_names n) l).
Proof.
  apply Forall_forall. intros t Ht. apply list_elem_of_fmap in Ht as (j & -> & _).
  done.
Qed.

Lemma get_data_item_ok p d n0 m ds w :
  0 < p → m < n0 → state_ok p d n0 m ds →
  ∃ ds' w', get_data_item p m ds w = Ok (ds', w') ∧ state_ok p d n0 (S m) ds'.
Proof.
  intros Hp Hm (Hat & Hac & Hag & Hv & Hfresh & Hitems).
  unfold get_data_item. rewrite zip_names.
  (* the text parses to the sum of the terms *)
  destruct p as [|p']; [lia|].
  change (seq 0 (S p')) with (0 :: seq 1 p') at 1.
  rewrite fmap_cons.
  set (t := pair_names m 0). set (ts := pair_names m <$> seq 1 p').
  assert (Hpairs : t :: ts = map (pair_names m) (seq 0 (S p'))) by done.
  unfold vocab_parse.
  change (λ '(x, y), x +:+ " * " +:+ y) with term_text.
  rewrite parse_text by (rewrite Hpairs; apply pair_names_like).
  assert (Hkeys : Forall (λ k, valid_key k = true ∧ ∀ i, k ≠ trace_key i)
                    (names (sum_expr t ts))).
  { apply names_sum. rewrite Hpairs. apply pair_names_keys. }
  destruct (eval_ok d (sum_expr t ts) (vocab ds) w Hv)
    as (val & v1 & w1 & Hev & Hv1 & Hsub1 & Hden & Hlen & Hother).
  { eapply Forall_impl; [exact Hkeys|]. by intros k [? _]. }
  rewrite (bind_ok _ _ _ _ _ Hev).
  (* the normalised trace goes into the vocabulary under a fresh key *)
  assert (Hnone : pointers v1 !! trace_key m = None).
  { rewrite Hother; [apply Hfresh; lia|]. intros Hin.
    rewrite Forall_forall in Hkeys. destruct (Hkeys _ Hin) as [_ Hne].
    by apply (Hne m). }
  destruct (vocab_add_ok d v1 (trace_key m) (normalize val) Hv1)
    as (v2 & Hadd & Hv2 & Hptr2); [done | done | by rewrite length_normalize |].
  rewrite (bind_ok _ _ _ _ _ (lift_ok _ _ _ Hadd)).
  assert (Hsub2 : pointers v1 ⊆ pointers v2)
    by (rewrite Hptr2; by apply insert_subseteq).
  (* the cue index *)
  destruct (randint (S p') (rng_obj w1)) as [k s] eqn:Hri.
  assert (Hk : k < S p').
  { pose proof (randint_lt (S p') (rng_obj w1) ltac:(lia)) as Hlt.
    by rewrite Hri in Hlt. }
  set (w2 := {| np_random := np_random w1; rng_obj := s;
                os_entropy := os_entropy w1 |}).
  assert (Hdraw : rng_randint (S p') w1 = Ok (k, w2)).
  { unfold rng_randint, draw. simpl. by rewrite Hri. }
  rewrite (bind_ok _ _ _ _ _ Hdraw).
  (* the three rows *)
  assert (Htr : pointers v2 !! trace_key m = Some (normalize val))
    by (by rewrite Hptr2, lookup_insert_eq).
  rewrite (bind_ok _ _ _ _ _
             (vocab_getitem_present v2 _ _ w2 (trace_key_key m) Htr)).
  destruct (set_row_ok n0 d (traces ds) m (normalize val) Hat Hm)
    as (tr' & Hset1 & Hat' & Hrow1 & Hrest1); [by rewrite length_normalize|].
  rewrite (bind_ok _ _ _ _ _ (lift_ok _ _ _ Hset1)).
  apply denote_sum in Hden as (rs & fs & Hrs & Hfs & Hval).
  rewrite Hpairs in Hrs, Hfs.
  apply (Forall2_map_seq _ _ _ _ []) in Hrs as [Hlrs Hrs].
  apply (Forall2_map_seq _ _ _ _ []) in Hfs as [Hlfs Hfs].
  simpl in Hrs, Hfs.
  assert (Hrk : pointers v2 !! role_name m k = Some (nth k rs []))
    by (eapply lookup_weaken; [by apply Hrs | done]).
  assert (Hfk : pointers v2 !! filler_name m k = Some (nth k fs []))
    by (eapply lookup_weaken; [by apply Hfs | done]).
  assert (Hlr : length (nth k rs []) = d)
    by (destruct Hv2 as (_ & _ & Hl & _); by eapply Hl).
  assert (Hlf : length (nth k fs []) = d)
    by (destruct Hv2 as (_ & _ & Hl & _); by eapply Hl).
  rewrite (bind_ok _ _ _ _ _
             (vocab_getitem_present v2 _ _ w2 (role_name_key m k) Hrk)).
  destruct (set_row_ok n0 d (cues ds) m (nth k rs []) Hac Hm Hlr)
    as (cu' & Hset2 & Hac' & Hrow2 & Hrest2).
  rewrite (bind_ok _ _ _ _ _ (lift_ok _ _ _ Hset2)).
  rewrite (bind_ok _ _ _ _ _
             (vocab_getitem_present v2 _ _ w2 (filler_name_key m k) Hfk)).
  destruct (set_row_ok n0 d (targets ds) m (nth k fs []) Hag Hm Hlf)
    as (tg' & Hset3 & Hag' & Hrow3 & Hrest3).
  rewrite (bind_ok _ _ _ _ _ (lift_ok _ _ _ Hset3)).
  eexists _, w2. split; [done|].
  split_and!; simpl; try done.
  - intros i Hi. rewrite Hptr2, lookup_insert_ne.
    + rewrite Hother; [apply Hfresh; lia|]. intros Hin.
      rewrite Forall_forall in Hkeys. destruct (Hkeys _ Hin) as [_ Hne].
      by apply (Hne i).
    + intros E. apply trace_key_inj in E. lia.
  - intros i Hi. destruct (decide (i = m)) as [->|Hne].
    + split; unfold trace_ok, cue_ok; simpl.
      * exists rs, fs. rewrite Hrow1. split_and!; try done.
        -- intros j Hj. eapply lookup_weaken; [by apply Hrs | done].
        -- intros j Hj. eapply lookup_weaken; [by apply Hfs | done].
        -- by rewrite Hval.
      * exists k. by rewrite Hrow2, Hrow3.
    + apply (item_ok_mono _ ds); simpl.
      * apply Hitems. lia.
      * by trans (pointers v1).
      * by apply Hrest1.
      * by apply Hrest2.
      * by apply Hrest3.
Qed.

(** *** The loop *)

Lemma for_each_ok p d n0 k : ∀ m ds w,
  0 < p → m + k = n0 → state_ok p d n0 m ds →
  ∃ ds' w', for_each (get_data_item p) (seq m k) ds w = Ok (ds', w') ∧
            state_ok p d n0 n0 ds'.
Proof.
  induction k as [|k IH]; intros m ds w Hp Hmk Hok.
  - exists ds, w. split; [done|].
    assert (m = n0) as <- by lia. done.
  - destruct (get_data_item_ok p d n0 m ds w) as (ds1 & w1 & Hitem & Hok1);
      [done | lia | done |].
    destruct (IH (S m) ds1 w1) as (ds' & w' & Hloop & Hok'); [done | lia | done |].
    exists ds', w'. split; [|done].
    simpl. by rewrite (bind_ok _ _ _ _ _ Hitem).
Qed.

(** For at least one pair per item and a positive dimension [get_data]
    returns, and what it returns is a data set whose every item is as
    [item_ok] says. *)
Lemma get_data_ok n_items pairs_per_item vec_d vocab_seed w :
  0 < pairs_per_item → 0 < vec_d →
  ∃ ds w', get_data n_items pairs_per_item vec_d vocab_seed w = Ok (ds, w') ∧
           state_ok pairs_per_item vec_d n_items n_items ds.
Proof.
  intros Hp Hd. unfold get_data.
  destruct (Vocabulary_new_ok vec_d Hd) as (v & Hnew & Hv & Hempty).
  unfold mbind at 1, M_bind.
  destruct vocab_seed as [sd|]; simpl;
    rewrite (bind_ok _ _ _ _ _ (lift_ok _ _ _ Hnew));
    (apply for_each_ok; [done | lia |]);
    (split_and!; simpl; try apply np_zeros_ok; try done;
     [intros i _; by rewrite Hempty, lookup_empty | intros i Hi; lia]).
Qed.

End GetDataFacts.

(** ** [get_data] and the generators around it

    A computation is isolated when numpy's module-level generator and the
    entropy of the operating system are mere passengers: they are not read
    and come out as they went in. *)

Section Isolation.
Context `{Framework}.

Lemma returned_moved {A} g e (r : result (A * World)) :
  returned (moved g e r) = returned r.
Proof. by destruct r as [[a w]|]. Qed.

Lemma isolated_ret {A} (a : A) : isolated (mret a).
Proof. done. Qed.

Lemma isolated_lift {A} (r : result A) : isolated (lift r).
Proof. by destruct r. Qed.

Lemma isolated_draw {A} (f : RngState → A * RngState) :
  isolated (draw LocalRng f).
Proof. intros g e w. unfold draw. simpl. by destruct (f (rng_obj w)). Qed.

Lemma isolated_bind {A B} (m : M A) (k : A → M B) :
  isolated m →
  (∀ a w w', m w = Ok (a, w') → isolated (k a)) →
  isolated (m ≫= k).
Proof.
  intros Hm Hk g e w. unfold mbind, M_bind. rewrite Hm.
  destruct (m w) as [[a w']|f] eqn:Hrun; simpl; [|done].
  by apply (Hk a w w').
Qed.

Lemma vocab_add_rng v key p v' :
  vocab_add v key p = Ok v' → rng v' = rng v.
Proof.
  unfold vocab_add. repeat case_match; try done. by intros [= <-].
Qed.

Lemma vocab_getitem_isolated v key :
  rng v = LocalRng → isolated (vocab_getitem v key).
Proof.
  intros Hr. unfold vocab_getitem. repeat case_match.
  - apply isolated_lift.
  - apply isolated_ret.
  - apply isolated_bind; [rewrite Hr; apply isolated_draw|].
    intros p _ _ _. apply isolated_bind; [apply isolated_lift|].
    intros; apply isolated_ret.
Qed.

Lemma vocab_getitem_rng v key w p v' w' :
  vocab_getitem v key w = Ok ((p, v'), w') → rng v' = rng v.
Proof.
  unfold vocab_getitem. repeat case_match; try done.
  - by intros [= _ <- _].
  - unfold mbind, M_bind, draw, lift.
    destruct (rng v) eqn:Hr; repeat case_match; try done; simplify_eq.
    all: intros [= _ <- _]; rewrite <- Hr; by eapply vocab_add_rng.
Qed.

Lemma eval_isolated e : ∀ v,
  rng v = LocalRng →
  isolated (eval e v) ∧
  (∀ w val v' w', eval e v w = Ok ((val, v'), w') → rng v' = LocalRng).
Proof.
  induction e as [s|a IHa b IHb|a IHa b IHb]; intros v Hr.
  - split; [by apply vocab_getitem_isolated|].
    intros w val v' w' Hrun. simpl in Hrun.
    by rewrite (vocab_getitem_rng _ _ _ _ _ _ Hrun).
  - destruct (IHa v Hr) as [Hia Hra]. split.
    + simpl. apply isolated_bind; [done|]. intros [x v1] w w1 Hrun.
      destruct (IHb v1 (Hra _ _ _ _ Hrun)) as [Hib _].
      apply isolated_bind; [done|]. intros [y v2] _ _ _. apply isolated_ret.
    + intros w val v' w'. simpl. unfold mbind, M_bind.
      destruct (eval a v w) as [[[x v1] w1]|] eqn:Ha; [|done].
      destruct (IHb v1 (Hra _ _ _ _ Ha)) as [_ Hrb].
      destruct (eval b v1 w1) as [[[y v2] w2]|] eqn:Hb; [|done].
      intros [= _ <- _]. by eapply Hrb.
  - destruct (IHa v Hr) as [Hia Hra]. split.
    + simpl. apply isolated_bind; [done|]. intros [x v1] w w1 Hrun.
      destruct (IHb v1 (Hra _ _ _ _ Hrun)) as [Hib _].
      apply isolated_bind; [done|]. intros [y v2] _ _ _. apply isolated_ret.
    + intros w val v' w'. simpl. unfold mbind, M_bind.
      destruct (eval a v w) as [[[x v1] w1]|] eqn:Ha; [|done].
      destruct (IHb v1 (Hra _ _ _ _ Ha)) as [_ Hrb].
      destruct (eval b v1 w1) as [[[y v2] w2]|] eqn:Hb; [|done].
      intros [= _ <- _]. by eapply Hrb.
Qed.

Lemma vocab_parse_isolated v text :
  rng v = LocalRng →
  isolated (vocab_parse v text) ∧
  (∀ w val v' w', vocab_parse v text w = Ok ((val, v'), w') →
                  rng v' = LocalRng).
Proof.
  intros Hr. unfold vocab_parse. case_match.
  - by apply eval_isolated.
  - split; [apply isolated_lift | done].
Qed.

Lemma rng_randint_isolated high : isolated (rng_randint high).
Proof.
  unfold rng_randint. case_match; [apply isolated_lift | apply isolated_draw].
Qed.

Lemma bind_inv {A B} (m : M A) (k : A → M B) w b w2 :
  (m ≫= k) w = Ok (b, w2) →
  ∃ a w1, m w = Ok (a, w1) ∧ k a w1 = Ok (b, w2).
Proof.
  unfold mbind, M_bind. destruct (m w) as [[a w1]|]; [|done]. eauto.
Qed.

Lemma lift_inv {A} (r : result A) w a w' :
  lift r w = Ok (a, w') → r = Ok a.
Proof. destruct r; simpl; [|done]. by intros [= -> _]. Qed.

Lemma get_data_item_rng p n ds w ds' w' :
  rng (vocab ds) = LocalRng →
  get_data_item p n ds w = Ok (ds', w') → rng (vocab ds') = LocalRng.
Proof.
  intros Hr. unfold get_data_item. intros Hrun.
  apply bind_inv in Hrun as ([tp v1] & w1 & Hparse & Hrun).
  apply (vocab_parse_isolated _ _ Hr) in Hparse.
  apply bind_inv in Hrun as (v2 & w2 & Hadd & Hrun).
  apply lift_inv, vocab_add_rng in Hadd.
  apply bind_inv in Hrun as (k & w3 & _ & Hrun).
  apply bind_inv in Hrun as ([t v3] & w4 & Hg1 & Hrun).
  apply vocab_getitem_rng in Hg1.
  apply bind_inv in Hrun as (tr & w5 & _ & Hrun).
  apply bind_inv in Hrun as ([c v4] & w6 & Hg2 & Hrun).
  apply vocab_getitem_rng in Hg2.
  apply bind_inv in Hrun as (cu & w7 & _ & Hrun).
  apply bind_inv in Hrun as ([f v5] & w8 & Hg3 & Hrun).
  apply vocab_getitem_rng in Hg3.
  apply bind_inv in Hrun as (tg & w9 & _ & Hrun).
  injection Hrun as <- _. simpl. congruence.
Qed.

Lemma get_data_item_isolated p n ds :
  rng (vocab ds) = LocalRng → isolated (get_data_item p n ds).
Proof.
  intros Hr. unfold get_data_item.
  apply isolated_bind; [by apply vocab_parse_isolated|].
  intros [tp v1] w w1 Hparse.
  apply (vocab_parse_isolated _ _ Hr) in Hparse.
  apply isolated_bind; [apply isolated_lift|]. intros v2 ? ? Hadd.
  apply lift_inv, vocab_add_rng in Hadd.
  assert (Hr2 : rng v2 = LocalRng) by congruence.
  apply isolated_bind; [apply rng_randint_isolated|]. intros k _ _ _.
  apply isolated_bind; [by apply vocab_getitem_isolated|].
  intros [t v3] ? ? Hg1. apply vocab_getitem_rng in Hg1.
  assert (Hr3 : rng v3 = LocalRng) by congruence.
  apply isolated_bind; [apply isolated_lift|]. intros tr _ _ _.
  apply isolated_bind; [by apply vocab_getitem_isolated|].
  intros [c v4] ? ? Hg2. apply vocab_getitem_rng in Hg2.
  assert (Hr4 : rng v4 = LocalRng) by congruence.
  apply isolated_bind; [apply isolated_lift|]. intros cu _ _ _.
  apply isolated_bind; [by apply vocab_getitem_isolated|].
  intros [f v5] _ _ _.
  apply isolated_bind; [apply isolated_lift|]. intros tg _ _ _.
  apply isolated_ret.
Qed.

Lemma for_each_isolated p ns : ∀ ds,
  rng (vocab ds) = LocalRng → isolated (for_each (get_data_item p) ns ds).
Proof.
  induction ns as [|n ns IH]; intros ds Hr; simpl.
  - apply isolated_ret.
  - apply isolated_bind; [by apply get_data_item_isolated|].
    intros ds1 w w1 Hrun. apply IH. by eapply get_data_item_rng.
Qed.

Lemma get_data_isolated n_items pairs_per_item vec_d (vocab_seed : seed) :
  isolated (get_data n_items pairs_per_item vec_d (Some vocab_seed)).
Proof.
  unfold get_data. apply isolated_bind; [done|]. intros _ _ _ _.
  apply isolated_bind; [apply isolated_lift|]. intros v w w' Hnew.
  apply for_each_isolated. simpl.
  apply lift_inv in Hnew. unfold Vocabulary_new in Hnew.
  case_match; [done|]. by injection Hnew as <-.
Qed.

(** With a seed other than [None], the world that [get_data] is started in
    does not show in what it returns, and the module-level generator and
    the entropy are left as they were. *)
Lemma get_data_any_world n_items pairs_per_item vec_d (vocab_seed : seed) w1 w2 :
  get_data n_items pairs_per_item vec_d (Some vocab_seed) w2
  = moved (np_random w2) (os_entropy w2)
      (get_data n_items pairs_per_item vec_d (Some vocab_seed) w1).
Proof.
  pose proof (get_data_isolated n_items pairs_per_item vec_d vocab_seed) as Hiso.
  rewrite <- Hiso. unfold get_data, mbind at 1 3, M_bind. done.
Qed.

(** With [None], the call takes the seed that the operating system hands
    out, and is the call with that seed. *)
Lemma get_data_fresh_seed n_items pairs_per_item vec_d w :
  get_data n_items pairs_per_item vec_d None w
  = moved (np_random w) (λ k, os_entropy w (S k))
      (get_data n_items pairs_per_item vec_d (Some (os_entropy w 0)) w).
Proof.
  pose proof (get_data_isolated n_items pairs_per_item vec_d (os_entropy w 0))
    as Hiso.
  rewrite <- Hiso. unfold get_data, mbind at 1 3, M_bind. done.
Qed.

End Isolation.

(** ** When the two functions fail *)

Section Failures.
Context `{Framework}.

Lemma py_index_some len t :
  is_Some (py_index len t) ↔ (- Z.of_nat len ≤ t < Z.of_nat len)%Z.
Proof.
  unfold py_index. repeat case_bool_decide; split; intros Hx;
    try (by eexists); try lia; by destruct Hx.
Qed.

Lemma broadcast_dim_some a b :
  is_Some (broadcast_dim a b) ↔ a = b ∨ a = 1 ∨ b = 1.
Proof.
  unfold broadcast_dim.
  destruct (Nat.eqb_spec a b), (Nat.eqb_spec a 1), (Nat.eqb_spec b 1);
    split; intros Hx; try (by eexists); try lia; by destruct Hx.
Qed.

Lemma accuracy_succeeds output vocab targets t :
  is_ok (accuracy output vocab targets t) = true ↔
    (- Z.of_nat (shape3 output).1.2 ≤ t < Z.of_nat (shape3 output).1.2)%Z ∧
    dimensions vocab = (shape3 output).2 ∧
    vectors vocab ≠ [] ∧
    0 < (shape3 targets).1.2 ∧
    is_Some (broadcast_dim (shape3 output).1.1 (shape3 targets).1.1) ∧
    is_Some (broadcast_dim (dimensions vocab) (shape3 targets).2).
Proof.
  destruct (shape3 output) as [[b s] d] eqn:Hso.
  destruct (shape3 targets) as [[tb ts] td] eqn:Hst. simpl.
  rewrite <- py_index_some.
  unfold accuracy, index_axis1. rewrite Hso, Hst.
  destruct (py_index s t) as [j|]; simpl;
    [|split; [done | by intros [[? ?] _]]].
  unfold np_dot, T, vectors_array. simpl.
  case_bool_decide as Hd; simpl; [|split; [done | by intros (_ & ? & _)]].
  unfold np_argmax_axis0. simpl.
  destruct (Nat.eqb_spec (length (vectors vocab)) 0) as [Hk|Hk]; simpl.
  { split; [done|]. intros (_ & _ & Hne & _). by destruct (vectors vocab). }
  unfold take_rows. simpl.
  rewrite (proj2 (forallb_forall _ _)); last first.
  { intros k Hk'. apply in_map_iff in Hk' as (i & <- & _).
    apply Nat.ltb_lt. unfold column at 1.
    match goal with |- argmax ?l < _ =>
      pose proof (argmax_lt l) as Hlt end.
    rewrite !length_map in Hlt. apply Hlt.
    by destruct (vectors vocab). }
  simpl.
  assert (Hts : is_Some (py_index ts 0) ↔ 0 < ts)
    by (rewrite py_index_some; lia).
  destruct (py_index ts 0) as [j0|]; simpl;
    [|split; [done | intros (_ & _ & _ & Hx & _); apply Hts in Hx;
                      by destruct Hx]].
  unfold np_equal. simpl. rewrite length_map, length_seq.
  destruct (broadcast_dim b tb) as [r|]; simpl;
    [|split; [done | intros (_ & _ & _ & _ & Hx & _); by destruct Hx]].
  destruct (broadcast_dim (dimensions vocab) td) as [c|]; simpl;
    [|split; [done | intros (_ & _ & _ & _ & _ & Hx); by destruct Hx]].
  split; [intros _ | done]. split_and!; try done.
  - by intros E; rewrite E in Hk.
  - apply Hts. by eexists.
Qed.

Lemma get_data_no_pairs n pairs_per_item ds w :
  pairs_per_item = 0 →
  get_data_item pairs_per_item n ds w
  = Raise (Failure SyntaxError Vocabulary_parse).
Proof. by intros ->. Qed.

Lemma get_data_no_dimension n_items pairs_per_item vocab_seed w :
  get_data n_items pairs_per_item 0 vocab_seed w
  = Raise (Failure ValidationError Vocabulary_init).
Proof. unfold get_data, mbind at 1, M_bind. by destruct vocab_seed. Qed.

Lemma get_data_item_without_pair n_items vec_d vocab_seed w :
  0 < vec_d → 0 < n_items →
  get_data n_items 0 vec_d vocab_seed w
  = Raise (Failure SyntaxError Vocabulary_parse).
Proof.
  intros Hd Hn. unfold get_data. unfold mbind at 1. unfold M_bind at 1.
  destruct (Vocabulary_new_ok vec_d Hd) as (v & Hnew & _).
  destruct vocab_seed; simpl; rewrite (bind_ok _ _ _ _ _ (lift_ok _ _ _ Hnew));
    by destruct n_items as [|n]; [lia|].
Qed.

Lemma get_data_succeeds n_items pairs_per_item vec_d vocab_seed w :
  is_ok (get_data n_items pairs_per_item vec_d vocab_seed w) = true ↔
    0 < vec_d ∧ (0 < pairs_per_item ∨ n_items = 0).
Proof.
  destruct (Nat.eqb_spec vec_d 0) as [->|Hd].
  { rewrite get_data_no_dimension. split; [done | lia]. }
  destruct pairs_per_item as [|p].
  - destruct n_items as [|n].
    + split; [lia|]. intros _.
      unfold get_data. unfold mbind at 1. unfold M_bind at 1.
      destruct (Vocabulary_new_ok vec_d ltac:(lia)) as (v & Hnew & _).
      by destruct vocab_seed; simpl;
        rewrite (bind_ok _ _ _ _ _ (lift_ok _ _ _ Hnew)).
    + rewrite get_data_item_without_pair by lia. split; [done | lia].
  - split; [lia|]. intros _.
    destruct (get_data_ok n_items (S p) vec_d vocab_seed w) as (ds & w' & -> & _);
      [lia | lia | done].
Qed.

(** The failures of [accuracy], in the order its statements run. *)
Lemma accuracy_outcome output vocab targets t :
  let in_range :=
    (- Z.of_nat (shape3 output).1.2 ≤ t < Z.of_nat (shape3 output).1.2)%Z in
  let fits := dimensions vocab = (shape3 output).2 in
  let broadcast :=
    is_Some (broadcast_dim (shape3 output).1.1 (shape3 targets).1.1) ∧
    is_Some (broadcast_dim (dimensions vocab) (shape3 targets).2) in
  (¬ in_range →
   accuracy output vocab targets t
   = Raise (Failure IndexError ndarray_getitem)) ∧
  (in_range → ¬ fits →
   accuracy output vocab targets t = Raise (Failure ValueError np_dot_call)) ∧
  (in_range → fits → vectors vocab = [] →
   accuracy output vocab targets t
   = Raise (Failure ValueError np_argmax_call)) ∧
  (in_range → fits → vectors vocab ≠ [] → (shape3 targets).1.2 = 0 →
   accuracy output vocab targets t
   = Raise (Failure IndexError ndarray_getitem)) ∧
  (in_range → fits → vectors vocab ≠ [] → 0 < (shape3 targets).1.2 →
   ¬ broadcast →
   accuracy output vocab targets t = Raise comparison_failure) ∧
  (in_range → fits → vectors vocab ≠ [] → 0 < (shape3 targets).1.2 →
   broadcast →
   is_ok (accuracy output vocab targets t) = true).
Proof.
  pose proof (accuracy_succeeds output vocab targets t) as Hok.
  destruct (shape3 output) as [[b s] d] eqn:Hso.
  destruct (shape3 targets) as [[tb ts] td] eqn:Hst. simpl in *.
  pose proof (py_index_some s t) as Hrange.
  assert (Hts : is_Some (py_index ts 0) ↔ 0 < ts)
    by (rewrite py_index_some; lia).
  unfold accuracy, index_axis1. rewrite Hso, Hst.
  destruct (py_index s t) as [j|]; simpl.
  2: { assert (Hno : ¬ (- Z.of_nat s ≤ t < Z.of_nat s)%Z).
       { intros Hr. apply Hrange in Hr. by destruct Hr. }
       split_and!; intros; done. }
  assert (Hr : (- Z.of_nat s ≤ t < Z.of_nat s)%Z) by (apply Hrange; eauto).
  unfold np_dot, T, vectors_array. simpl.
  case_bool_decide as Hd; simpl.
  2: { split_and!; intros; done. }
  unfold np_argmax_axis0. simpl.
  destruct (Nat.eqb_spec (length (vectors vocab)) 0) as [Hk|Hk]; simpl.
  { assert (vectors vocab = []) by (by destruct (vectors vocab)).
    split_and!; intros; done. }
  assert (Hne : vectors vocab ≠ []) by (by intros E; rewrite E in Hk).
  unfold take_rows. simpl.
  rewrite (proj2 (forallb_forall _ _)); last first.
  { intros k Hk'. apply in_map_iff in Hk' as (i & <- & _).
    apply Nat.ltb_lt. unfold column at 1.
    match goal with |- argmax ?l < _ =>
      pose proof (argmax_lt l) as Hlt end.
    rewrite !length_map in Hlt. apply Hlt.
    by destruct (vectors vocab). }
  simpl.
  destruct (py_index ts 0) as [j0|]; simpl.
  2: { assert (ts = 0).
       { destruct ts; [done|]. destruct (proj2 Hts ltac:(lia)) as [? ?]. done. }
       split_and!; intros; try done; lia. }
  assert (Hpos : 0 < ts) by (apply Hts; eauto).
  unfold np_equal. simpl. rewrite length_map, length_seq.
  destruct (broadcast_dim b tb) as [r|]; simpl.
  2: { split_and!; intros; try done; try lia.
       - match goal with Hb : is_Some None ∧ _ |- _ =>
           destruct Hb as [[? ?] _]; done end. }
  destruct (broadcast_dim (dimensions vocab) td) as [c|]; simpl.
  2: { split_and!; intros; try done; try lia.
       - match goal with Hb : _ ∧ is_Some None |- _ =>
           destruct Hb as [_ [? ?]]; done end. }
  split_and!; intros; try done; try lia.
  match goal with Hb : ¬ _ |- _ => destruct Hb; split; eauto end.
Qed.

(** The failures of the plotting cell's index. *)
Lemma highlighted_outcome test_vocab test_targets :
  ((shape3 test_targets).1.1 = 0 ∨ (shape3 test_targets).1.2 = 0 →
   highlighted test_vocab test_targets
   = Raise (Failure IndexError ndarray_getitem)) ∧
  (0 < (shape3 test_targets).1.1 → 0 < (shape3 test_targets).1.2 →
   broadcast_dim (dimensions test_vocab) (shape3 test_targets).2 = None →
   highlighted test_vocab test_targets = Raise comparison_failure) ∧
  (∀ f, highlighted test_vocab test_targets = Raise f →
        f = Failure IndexError ndarray_getitem ∨ f = comparison_failure).
Proof.
  unfold highlighted, index_row.
  destruct (shape3 test_targets) as [[n0 n1] d] eqn:Hs. simpl.
  assert (Hzero : ∀ n, py_index n 0 = if n =? 0 then None else Some 0).
  { intros n. unfold py_index.
    destruct (Nat.eqb_spec n 0) as [->|Hn]; [done|].
    by rewrite bool_decide_eq_true_2 by lia. }
  rewrite !Hzero.
  destruct (Nat.eqb_spec n0 0) as [Hn0|Hn0]; simpl.
  { split_and!; [done | lia |]. intros f [= <-]. by left. }
  destruct (Nat.eqb_spec n1 0) as [Hn1|Hn1]; simpl.
  { split_and!; [done | lia |]. intros f [= <-]. by left. }
  unfold np_equal, vectors_array. simpl. rewrite broadcast_dim_one_r.
  destruct (broadcast_dim (dimensions test_vocab) d) as [c|]; simpl.
  - split_and!; [intros [?|?]; lia | done |].
    intros f Hf. left. unfold first_true in Hf.
    destruct (list_find _ _) as [[? ?]|]; [done|]. by injection Hf as <-.
  - split_and!; [intros [?|?]; lia | done |]. intros f [= <-]. by right.
Qed.

End Failures.

(** ** The [with] block keeps its calls on an open simulator *)

Section LifecycleFacts.
Import Lifecycle.

Lemma monitor_app watched tr1 : ∀ opened tr2,
  monitor watched opened tr1 = true →
  (∀ opened', monitor watched opened' tr2 = true) →
  monitor watched opened (tr1 ++ tr2) = true.
Proof.
  induction tr1 as [|e tr1 IH]; intros opened tr2 H1 H2; simpl; [done|].
  destruct e; simpl in *; try by apply IH.
  apply andb_true_iff in H1 as [-> H1]. by apply IH.
Qed.

Lemma calls_trace sim ms s :
  (calls sim ms s).2
  = {| next_sim := next_sim s; trace := trace s ++ map (Called sim) ms |}.
Proof.
  revert s. induction ms as [|m ms IH]; intros s; simpl.
  - rewrite app_nil_r. by destruct s.
  - unfold mbind, N_bind, call, emit. simpl. rewrite IH. simpl.
    by rewrite <- app_assoc.
Qed.

Lemma monitor_calls_open watched sim ms opened :
  sim ∈ opened → monitor watched opened (map (Called sim) ms) = true.
Proof.
  intros Hin. induction ms as [|m ms IH]; simpl; [done|].
  rewrite IH, andb_true_r. case_match; [by apply bool_decide_eq_true_2|done].
Qed.

(** Whatever methods a [with] block calls on its simulator, and whatever
    happened before, the block adds no watched call on a closed simulator. *)
Lemma with_block_monitor watched ms s :
  monitor watched [] (trace s) = true →
  monitor watched []
    (trace (with_Simulator (λ sim, calls sim ms) s).2) = true.
Proof.
  intros Hs. unfold with_Simulator, mbind, N_bind, Simulator, close, emit.
  simpl. destruct (calls (next_sim s) ms _) as [u s'] eqn:Hc.
  pose proof (calls_trace (next_sim s) ms
    {| next_sim := S (next_sim s); trace := trace s ++ [Created (next_sim s)] |})
    as Ht.
  rewrite Hc in Ht. simpl in Ht. subst s'. simpl.
  rewrite <- !app_assoc. apply monitor_app; [done|]. intros opened. simpl.
  apply monitor_app; [|done].
  apply monitor_calls_open. set_solver.
Qed.

End LifecycleFacts.

(** ** The definitions at work *)

(** The text that item 0 hands to [vocab.parse] when it has two pairs, and the
    tree it is read as. *)
Example text_of_item_0 :
  String.concat "+"
    (map term_text (zip (map (role_name 0) (seq 0 2)) (map (filler_name 0) (seq 0 2))))
  = "ROLE_0_0 * FILLER_0_0+ROLE_0_1 * FILLER_0_1".
Proof. reflexivity. Qed.

Example tree_of_item_0 :
  lex "" "ROLE_0_0 * FILLER_0_0+ROLE_0_1 * FILLER_0_1"
    ≫= parse_tokens None None true
  = Some (EAdd (EMul (EName "ROLE_0_0") (EName "FILLER_0_0"))
               (EMul (EName "ROLE_0_1") (EName "FILLER_0_1"))).
Proof. reflexivity. Qed.

(** The keys of the vocabulary come in the order Python evaluates the names
    of the expression, and the trace follows its pairs. *)
Example keys_in_order_of_creation :
  match @get_data _ lcg_framework 2 2 3 (Some 0%Z) world0 with
  | Ok (ds, _) => keys (vocab ds)
  | Raise _ => []
  end
  = ["ROLE_0_0"; "FILLER_0_0"; "ROLE_0_1"; "FILLER_0_1"; "TRACE_0";
     "ROLE_1_0"; "FILLER_1_0"; "ROLE_1_1"; "FILLER_1_1"; "TRACE_1"].
Proof. vm_compute. reflexivity. Qed.

(** Two items, of which the first is retrieved: half of the batch. *)
Example accuracy_one_of_two :
  accuracy_last output2 two_vectors targets2 = Ok (Finite (1 # 2)).
Proof. reflexivity. Qed.

Example circular_convolution_by_unit_shift :
  @cconv Z_scalar [1; 2; 3]%Z [0; 1; 0]%Z = [3; 1; 2]%Z.
Proof. reflexivity. Qed.

(** * The claims *)

Lemma mean_in_unit_interval (c b : nat) :
  c ≤ b → 0 < b → (0 <= Z.of_nat c # Pos.of_nat b <= 1)%Q.
Proof.
  intros Hc Hb. unfold Qle. simpl.
  assert (Z.pos (Pos.of_nat b) = Z.of_nat b) as ->.
  { destruct b as [|b]; [lia|]. rewrite <- Pos.of_nat_succ. lia. }
  lia.
Qed.

(** C3, as amended.  For an output of shape (b, s, d) with at least one item,
    a time step [t] in range for the axis of length [s], a vocabulary of
    dimension [d] with at least one vector, and targets of shape (b, ts, d)
    with at least one step, [accuracy] returns the mean over the batch of the
    hits: item [i] is a hit when the vocabulary vector at the first index of
    greatest similarity to [output[i, t, :]] equals [targets[i, 0, :]].  The
    mean lies between 0 and 1. *)
Theorem accuracy_is_mean_of_hits `{Scalar} output vocab targets t b s d ts :
  shape3 output = (b, s, d) → wf3 output →
  shape3 targets = (b, ts, d) → wf3 targets → 0 < ts →
  dimensions vocab = d →
  Forall (λ v, length v = d) (vectors vocab) →
  vectors vocab ≠ [] →
  0 < b → (- Z.of_nat s ≤ t < Z.of_nat s)%Z →
  ∃ j hits,
    py_index s t = Some j ∧
    accuracy output vocab targets t
      = Ok (Finite (Z.of_nat (count_true hits) # Pos.of_nat b)) ∧
    length hits = b ∧
    (∀ i, i < b →
       ∃ k, first_max (similarities vocab (row_at output i j)) k ∧
            hits !! i
            = Some (bool_decide (nth k (vectors vocab) [] = row_at targets i 0))) ∧
    (0 <= Z.of_nat (count_true hits) # Pos.of_nat b <= 1)%Q.
Proof.
  intros Hso Hwo Hst Hwt Hts Hd Hvs Hne Hb Ht.
  destruct (proj2 (py_index_some s t) Ht) as [j Hj].
  set (hit := λ i,
    bool_decide (nth (argmax (similarities vocab (row_at output i j)))
                     (vectors vocab) [] = row_at targets i 0)).
  exists j, (map hit (seq 0 b)).
  assert (Hlen : length (map hit (seq 0 b)) = b)
    by (by rewrite length_map, length_seq).
  assert (HQ : (0 <= Z.of_nat (count_true (map hit (seq 0 b))) # Pos.of_nat b
                <= 1)%Q).
  { apply mean_in_unit_interval; [|done].
    rewrite <- Hlen at 2. apply count_true_le. }
  split_and!; try done; try apply HQ.
  - rewrite (accuracy_value output vocab targets t b s d ts j) by done.
    fold hit. unfold np_mean. rewrite Hlen. by destruct b; [lia|].
  - intros i Hi. exists (argmax (similarities vocab (row_at output i j))).
    split.
    + apply argmax_first_max. unfold similarities.
      by destruct (vectors vocab).
    + by rewrite list_lookup_fmap, lookup_seq_lt.
Qed.

Lemma accuracy_is_mean_of_hits_witness :
  ∃ j hits,
    py_index 1 (-1) = Some j ∧
    accuracy output2 two_vectors targets2 (-1)
      = Ok (Finite (Z.of_nat (count_true hits) # Pos.of_nat 2)) ∧
    length hits = 2 ∧
    (∀ i, i < 2 →
       ∃ k, first_max (similarities two_vectors (row_at output2 i j)) k ∧
            hits !! i
            = Some (bool_decide
                      (nth k (vectors two_vectors) [] = row_at targets2 i 0))) ∧
    (0 <= Z.of_nat (count_true hits) # Pos.of_nat 2 <= 1)%Q.
Proof.
  apply (accuracy_is_mean_of_hits output2 two_vectors targets2 (-1) 2 1 2 1).
  - reflexivity.
  - split; [reflexivity|]. repeat constructor.
  - reflexivity.
  - split; [reflexivity|]. repeat constructor.
  - lia.
  - reflexivity.
  - repeat constructor.
  - discriminate.
  - lia.
  - simpl; lia.
Defined.

(** C3 as it is written fails at an empty batch, where the mean is NaN, and
    at a time step outside the output's steps, where there is no value. *)
Lemma accuracy_without_mean :
  accuracy_last no_items two_vectors no_items = Ok NaN ∧
  accuracy output2 two_vectors targets2 1
  = Raise (Failure IndexError ndarray_getitem).
Proof. split; reflexivity. Qed.

(** C2.  With at least one pair per item and a positive dimension,
    [get_data] returns, and for every item [n] it generated the stored trace
    is built by binding and superposition: the vocabulary holds under
    TRACE_n the row [traces[n, 0, :]], and that row is [normalize] applied to
    the sum over [j] of ROLE_n_j circularly convolved with FILLER_n_j.  The
    pointer is normalised before [vocab.add] stores it. *)
Theorem trace_is_normalized_superposition `{Framework}
    n_items pairs_per_item vec_d vocab_seed w :
  0 < pairs_per_item → 0 < vec_d →
  ∃ ds w',
    get_data n_items pairs_per_item vec_d vocab_seed w = Ok (ds, w') ∧
    ∀ n, n < n_items → trace_ok pairs_per_item ds n.
Proof.
  intros Hp Hd.
  destruct (get_data_ok n_items pairs_per_item vec_d vocab_seed w Hp Hd)
    as (ds & w' & Hrun & Hok).
  exists ds, w'. split; [done|]. intros n Hn.
  destruct Hok as (_ & _ & _ & _ & _ & Hitems). by apply Hitems.
Qed.

Lemma trace_is_normalized_superposition_witness :
  (0 < 2 ∧ 0 < 3) ∧
  ∃ ds w',
    @get_data _ lcg_framework 2 2 3 (Some 0%Z) world0 = Ok (ds, w') ∧ ∀ n, n < 2 → trace_ok 2 ds n.
Proof.
  split; [lia|].
  apply (@trace_is_normalized_superposition _ lcg_framework 2 2 3 (Some 0%Z) world0); lia.
Defined.

(** C6.  For every number of items, at least one pair per item and a
    positive dimension, [get_data] returns three arrays of shape
    (n_items, 1, vec_d), and for every item [n] one index [k] below
    [pairs_per_item] serves both rows: the cue is the vocabulary vector of
    ROLE_n_k and the target the vocabulary vector of FILLER_n_k. *)
Theorem cue_and_target_share_a_pair `{Framework}
    n_items pairs_per_item vec_d vocab_seed w :
  0 < pairs_per_item → 0 < vec_d →
  ∃ ds w',
    get_data n_items pairs_per_item vec_d vocab_seed w = Ok (ds, w') ∧
    (shape3 (traces ds) = (n_items, 1, vec_d) ∧ wf3 (traces ds)) ∧
    (shape3 (cues ds) = (n_items, 1, vec_d) ∧ wf3 (cues ds)) ∧
    (shape3 (targets ds) = (n_items, 1, vec_d) ∧ wf3 (targets ds)) ∧
    ∀ n, n < n_items → cue_ok pairs_per_item ds n.
Proof.
  intros Hp Hd.
  destruct (get_data_ok n_items pairs_per_item vec_d vocab_seed w Hp Hd)
    as (ds & w' & Hrun & Hat & Hac & Hag & _ & _ & Hitems).
  exists ds, w'. split_and!; try done; try apply Hat; try apply Hac;
    try apply Hag.
  intros n Hn. by apply Hitems.
Qed.

Lemma cue_and_target_share_a_pair_witness :
  (0 < 2 ∧ 0 < 3) ∧
  ∃ ds w',
    @get_data _ lcg_framework 4 2 3 (Some 1%Z) world0 = Ok (ds, w') ∧
    (shape3 (traces ds) = (4, 1, 3) ∧ wf3 (traces ds)) ∧
    (shape3 (cues ds) = (4, 1, 3) ∧ wf3 (cues ds)) ∧
    (shape3 (targets ds) = (4, 1, 3) ∧ wf3 (targets ds)) ∧
    ∀ n, n < 4 → cue_ok 2 ds n.
Proof.
  split; [lia|].
  apply (@cue_and_target_share_a_pair _ lcg_framework 4 2 3 (Some 1%Z) world0); lia.
Defined.

(** C9, as amended.  For a seed other than [None], [get_data] is a function
    of its four arguments: started in any two worlds (any states of numpy's
    module-level generator, of an earlier [RandomState] object and of the
    operating system's entropy) it returns the same arrays and vocabulary,
    or fails alike.  Every draw is made from the generator created from
    [vocab_seed]; the module-level generator is not read and is left as it
    was, and no entropy is used.  With [None] the call takes the seed that
    the operating system hands out and is the call with that seed. *)
Theorem get_data_deterministic `{Framework}
    n_items pairs_per_item vec_d (vocab_seed : seed) w1 w2 :
  returned (get_data n_items pairs_per_item vec_d (Some vocab_seed) w1)
  = returned (get_data n_items pairs_per_item vec_d (Some vocab_seed) w2) ∧
  get_data n_items pairs_per_item vec_d (Some vocab_seed) w2
  = moved (np_random w2) (os_entropy w2)
      (get_data n_items pairs_per_item vec_d (Some vocab_seed) w1) ∧
  get_data n_items pairs_per_item vec_d None w1
  = moved (np_random w1) (λ k, os_entropy w1 (S k))
      (get_data n_items pairs_per_item vec_d (Some (os_entropy w1 0)) w1).
Proof.
  pose proof (get_data_any_world n_items pairs_per_item vec_d vocab_seed w1 w2)
    as Hmove.
  split_and!; [|done|apply get_data_fresh_seed].
  by rewrite Hmove, returned_moved.
Qed.

(** C9 as it is written fails for [vocab_seed = None]: two calls with the
    same four arguments, one after the other, return different traces, cues
    and targets. *)
Lemma get_data_seeded_by_the_system :
  match returned (@get_data_twice _ lcg_framework 2 2 3 None world0) with
  | Ok (first, second) =>
      traces first ≠ traces second ∧ cues first ≠ cues second ∧
      targets first ≠ targets second
  | Raise _ => False
  end.
Proof. vm_compute. split_and!; discriminate. Qed.

(** C4, as amended.  Every failure of [accuracy], of [get_data] and of the
    plotting cell's index is the exception of a library call in their body,
    and the three can fail.  [accuracy] fails, in the order its statements
    run: with IndexError from [output[:, t_step, :]] when the time step is
    out of range; with ValueError from [np.dot] when the vocabulary has not
    the dimension of the output; with ValueError from [np.argmax] when the
    vocabulary is empty; with IndexError from [targets[:, 0]] when the
    targets have no time step; and with the failure of the comparison
    (ValueError from [==] in numpy 1.25 and later, AxisError from [np.all]
    before) when the chosen vectors and the targets cannot be broadcast.
    Otherwise it returns.  [get_data] fails with ValidationError from
    [spa.Vocabulary] when the dimension is 0, with SyntaxError from
    [vocab.parse] when an item has no pair, and returns otherwise, for every
    seed.  The plotting cell's index fails with IndexError when the targets
    have no item or no step, with the failure of the comparison when the
    dimensions cannot be broadcast, and in no other way than these two.
    The last part says the same of [accuracy] and [get_data] from the side
    of success: when exactly they return. *)
Theorem failures_are_library_exceptions `{Framework}
    output vocab targets t n_items pairs_per_item vec_d vocab_seed w
    test_vocab test_targets :
  let in_range :=
    (- Z.of_nat (shape3 output).1.2 ≤ t < Z.of_nat (shape3 output).1.2)%Z in
  let fits := dimensions vocab = (shape3 output).2 in
  let broadcast :=
    is_Some (broadcast_dim (shape3 output).1.1 (shape3 targets).1.1) ∧
    is_Some (broadcast_dim (dimensions vocab) (shape3 targets).2) in
  ((¬ in_range →
    accuracy output vocab targets t
    = Raise (Failure IndexError ndarray_getitem)) ∧
   (in_range → ¬ fits →
    accuracy output vocab targets t = Raise (Failure ValueError np_dot_call)) ∧
   (in_range → fits → vectors vocab = [] →
    accuracy output vocab targets t
    = Raise (Failure ValueError np_argmax_call)) ∧
   (in_range → fits → vectors vocab ≠ [] → (shape3 targets).1.2 = 0 →
    accuracy output vocab targets t
    = Raise (Failure IndexError ndarray_getitem)) ∧
   (in_range → fits → vectors vocab ≠ [] → 0 < (shape3 targets).1.2 →
    ¬ broadcast →
    accuracy output vocab targets t = Raise comparison_failure) ∧
   (in_range → fits → vectors vocab ≠ [] → 0 < (shape3 targets).1.2 →
    broadcast →
    is_ok (accuracy output vocab targets t) = true)) ∧
  ((vec_d = 0 →
    get_data n_items pairs_per_item vec_d vocab_seed w
    = Raise (Failure ValidationError Vocabulary_init)) ∧
   (0 < vec_d → pairs_per_item = 0 → 0 < n_items →
    get_data n_items pairs_per_item vec_d vocab_seed w
    = Raise (Failure SyntaxError Vocabulary_parse)) ∧
   (0 < vec_d → 0 < pairs_per_item ∨ n_items = 0 →
    is_ok (get_data n_items pairs_per_item vec_d vocab_seed w) = true)) ∧
  (((shape3 test_targets).1.1 = 0 ∨ (shape3 test_targets).1.2 = 0 →
    highlighted test_vocab test_targets
    = Raise (Failure IndexError ndarray_getitem)) ∧
   (0 < (shape3 test_targets).1.1 → 0 < (shape3 test_targets).1.2 →
    broadcast_dim (dimensions test_vocab) (shape3 test_targets).2 = None →
    highlighted test_vocab test_targets = Raise comparison_failure) ∧
   (∀ f, highlighted test_vocab test_targets = Raise f →
         f = Failure IndexError ndarray_getitem ∨ f = comparison_failure)) ∧
  ((is_ok (accuracy output vocab targets t) = true ↔
      in_range ∧ fits ∧ vectors vocab ≠ [] ∧ 0 < (shape3 targets).1.2 ∧
      broadcast) ∧
   (is_ok (get_data n_items pairs_per_item vec_d vocab_seed w) = true ↔
      0 < vec_d ∧ (0 < pairs_per_item ∨ n_items = 0))).
Proof.
  intros in_range fits broadcast. split_and!.
  1-6: by apply accuracy_outcome.
  - intros ->. apply get_data_no_dimension.
  - intros Hd -> Hn. by apply get_data_item_without_pair.
  - intros Hd Hp. by apply get_data_succeeds.
  - apply highlighted_outcome.
  - apply highlighted_outcome.
  - apply highlighted_outcome.
  - apply accuracy_succeeds.
  - apply get_data_succeeds.
Qed.

(** C4 as it is written fails: [accuracy] is the site of a ValueError for
    an empty vocabulary and of an IndexError for a time step out of range,
    and [get_data] of a SyntaxError when an item has no pair. *)
Lemma notebook_functions_fail :
  accuracy_last output2 empty_vocabulary targets2
  = Raise (Failure ValueError np_argmax_call) ∧
  accuracy output2 two_vectors targets2 (-2)
  = Raise (Failure IndexError ndarray_getitem) ∧
  returned (@get_data _ lcg_framework 1 0 3 (Some 0%Z) world0)
  = Raise (Failure SyntaxError Vocabulary_parse).
Proof. split_and!; reflexivity. Qed.

(** C7, as amended.  In the three notebooks, for either value of
    [do_training], every call of step, run_steps, run, predict, compile, fit
    and evaluate, and every call of save_params and load_params, is made on
    a simulator that has been created and not yet closed. *)
Theorem execution_on_open_simulator (do_training : bool) :
  let notebooks :=
    [Lifecycle.spa_retrieval do_training; Lifecycle.from_tensorflow;
     Lifecycle.keras_model] in
  Forall (λ nb,
    Lifecycle.monitor Lifecycle.executes [] (Lifecycle.trace_of nb) = true ∧
    Lifecycle.monitor Lifecycle.needs_open [] (Lifecycle.trace_of nb) = true)
    notebooks.
Proof. destruct do_training; repeat constructor. Qed.

(** C7 as it is written fails: from-tensorflow.ipynb calls [sim.trange()]
    after the [with] block has closed the simulator. *)
Lemma trange_on_closed_simulator :
  Lifecycle.monitor Lifecycle.is_call []
    (Lifecycle.trace_of Lifecycle.from_tensorflow) = false ∧
  firstn 4 (skipn 3 (Lifecycle.trace_of Lifecycle.from_tensorflow))
  = [Lifecycle.Created 1; Lifecycle.Called 1 Lifecycle.run_steps;
     Lifecycle.Closed 1; Lifecycle.Called 1 Lifecycle.trange].
Proof. split; reflexivity. Qed.

(** * Further properties *)

(** ** The names of the pointers *)

Section NameFacts.

Lemma digits_all_digits d : all_digits (NilEmpty.string_of_uint d) = true.
Proof. induction d; simpl; by rewrite ?IHd. Qed.

Lemma str_all_digits n : all_digits (str n) = true.
Proof.
  unfold str, NilZero.string_of_uint.
  destruct (Nat.to_uint n) eqn:E; try done; rewrite <- E;
    apply digits_all_digits.
Qed.

(** Two numbers and what follows them, split at the underscore. *)
Lemma split_at_underscore a a' b b' :
  all_digits a = true → all_digits a' = true →
  a +:+ String "_" b = a' +:+ String "_" b' → a = a' ∧ b = b'.
Proof.
  revert a'. induction a as [|c a IH]; intros [|c' a'] Ha Ha' E.
  - change (String "_" b = String "_" b') in E. by injection E as ->.
  - change (String "_" b = String c' (a' +:+ String "_" b')) in E.
    injection E as <- _. simpl in Ha'. done.
  - change (String c (a +:+ String "_" b) = String "_" b') in E.
    injection E as -> _. simpl in Ha. done.
  - change (String c (a +:+ String "_" b) = String c' (a' +:+ String "_" b'))
      in E.
    injection E as -> E.
    simpl in Ha, Ha'. apply andb_true_iff in Ha as [_ Ha].
    apply andb_true_iff in Ha' as [_ Ha'].
    destruct (IH a' Ha Ha' E) as [-> ->]. done.
Qed.

Lemma role_name_inj n i n' i' :
  role_name n i = role_name n' i' → n = n' ∧ i = i'.
Proof.
  unfold role_name. intros E.
  change ("ROLE_" +:+ (str n +:+ String "_" (str i))
          = "ROLE_" +:+ (str n' +:+ String "_" (str i'))) in E.
  rewrite !append_cons, !append_empty_l in E. injection E as E.
  apply split_at_underscore in E as [En Ei]; try apply str_all_digits.
  split; by apply str_inj.
Qed.

Lemma filler_name_inj n i n' i' :
  filler_name n i = filler_name n' i' → n = n' ∧ i = i'.
Proof.
  unfold filler_name. intros E.
  change ("FILLER_" +:+ (str n +:+ String "_" (str i))
          = "FILLER_" +:+ (str n' +:+ String "_" (str i'))) in E.
  rewrite !append_cons, !append_empty_l in E. injection E as E.
  apply split_at_underscore in E as [En Ei]; try apply str_all_digits.
  split; by apply str_inj.
Qed.

Lemma elem_of_item_keys k p n :
  k ∈ item_keys p n ↔
    (∃ j, j < p ∧ (k = role_name n j ∨ k = filler_name n j)) ∨ k = trace_key n.
Proof.
  unfold item_keys. rewrite elem_of_app, list_elem_of_bind, list_elem_of_singleton.
  split.
  - intros [(j & Hk & Hj)| ->]; [left|by right].
    apply elem_of_seq in Hj. exists j. split; [lia|].
    apply elem_of_cons in Hk as [->|Hk]; [by left|].
    apply list_elem_of_singleton in Hk as ->. by right.
  - intros [(j & Hj & Hk)| ->]; [left|by right].
    exists j. split; [|apply elem_of_seq; lia].
    destruct Hk as [->| ->]; [by left | right; by left].
Qed.

Lemma item_keys_same_item k p n p' n' :
  k ∈ item_keys p n → k ∈ item_keys p' n' → n = n'.
Proof.
  rewrite !elem_of_item_keys.
  intros [(j & _ & [->| ->])| ->] [(j' & _ & [E|E])|E]; try done.
  - by apply role_name_inj in E as [-> _].
  - by apply filler_name_inj in E as [-> _].
  - by apply trace_key_inj.
Qed.

Lemma NoDup_item_keys p n : NoDup (item_keys p n).
Proof.
  unfold item_keys. apply NoDup_app. split_and!.
  - apply NoDup_bind; [| |apply NoDup_seq].
    + intros j j' k _ _ Hk Hk'.
      apply elem_of_cons in Hk as [->|Hk];
        apply elem_of_cons in Hk' as [E|Hk']; try done.
      * by apply role_name_inj in E as [_ ->].
      * by apply list_elem_of_singleton in Hk'.
      * apply list_elem_of_singleton in Hk as ->. done.
      * apply list_elem_of_singleton in Hk as ->.
        apply list_elem_of_singleton in Hk'.
        by apply filler_name_inj in Hk' as [_ ->].
    + intros j _. apply NoDup_cons. split; [|apply NoDup_singleton].
      by intros E%list_elem_of_singleton.
  - intros k (j & Hk & _)%list_elem_of_bind Hk'%list_elem_of_singleton.
    subst k. apply elem_of_cons in Hk as [E|E%list_elem_of_singleton]; done.
  - apply NoDup_singleton.
Qed.

Lemma all_keys_S p m : all_keys p (S m) = all_keys p m ++ item_keys p m.
Proof.
  unfold all_keys. by rewrite seq_S, bind_app, bind_singleton.
Qed.

Lemma elem_of_all_keys k p m :
  k ∈ all_keys p m ↔ ∃ n, n < m ∧ k ∈ item_keys p n.
Proof.
  unfold all_keys. rewrite list_elem_of_bind. split.
  - intros (n & Hk & Hn). apply elem_of_seq in Hn. exists n. split; [lia|done].
  - intros (n & Hn & Hk). exists n. split; [done|]. apply elem_of_seq. lia.
Qed.

Lemma NoDup_all_keys p m : NoDup (all_keys p m).
Proof.
  apply NoDup_bind; [| |apply NoDup_seq].
  - intros n n' k _ _. apply item_keys_same_item.
  - intros n _. apply NoDup_item_keys.
Qed.

Lemma length_item_keys p n : length (item_keys p n) = 2 * p + 1.
Proof.
  unfold item_keys. rewrite length_app. simpl.
  assert (Hl : ∀ a, length (seq a p ≫= λ j, [role_name n j; filler_name n j])
                    = 2 * p).
  { induction p as [|p IH]; intros a; [done|]. simpl seq.
    rewrite bind_cons, length_app, IH. simpl. lia. }
  rewrite Hl. lia.
Qed.

Lemma length_all_keys p m : length (all_keys p m) = m * (2 * p + 1).
Proof.
  induction m as [|m IH]; [done|].
  rewrite all_keys_S, length_app, IH, length_item_keys. lia.
Qed.

End NameFacts.

(** ** How the vocabulary grows *)

Section VocabularyGrowth.
Context `{Framework}.

Lemma grows_refl v : grows v v.
Proof. done. Qed.

Lemma grows_trans v1 v2 v3 : grows v1 v2 → grows v2 v3 → grows v1 v3.
Proof.
  intros (Hp & Hk & Hv) (Hp' & Hk' & Hv'). split_and!; by etrans.
Qed.

Lemma vocab_add_inv v key p v' :
  vocab_add v key p = Ok v' →
  valid_key key = true ∧ pointers v !! key = None ∧
  pointers v' = <[key := p]> (pointers v) ∧
  keys v' = keys v ++ [key] ∧ vectors v' = vectors v ++ [p] ∧
  dimensions v' = dimensions v.
Proof.
  unfold vocab_add. destruct (valid_key key); simpl; [|done].
  destruct (pointers v !! key); [done|].
  destruct (length p =? dimensions v); [|done]. by intros [= <-].
Qed.

Lemma aligned_key_some v k : aligned v → k ∈ keys v → is_Some (pointers v !! k).
Proof.
  intros (_ & Hall & _) Hk. apply list_elem_of_lookup in Hk as [i Hi].
  destruct (Forall2_lookup_l _ _ _ _ _ Hall Hi) as (x & _ & Hx). by exists x.
Qed.

Lemma vocab_add_aligned v key p v' :
  vocab_add v key p = Ok v' → aligned v → aligned v' ∧ grows v v'.
Proof.
  intros (_ & Hnone & Hp & Hk & Hv & _)%vocab_add_inv Hal.
  assert (Hfresh : key ∉ keys v).
  { intros Hin. apply (aligned_key_some _ _ Hal) in Hin.
    rewrite Hnone in Hin. by destruct Hin. }
  assert (Hsub : pointers v ⊆ pointers v')
    by (rewrite Hp; by apply insert_subseteq).
  destruct Hal as (Hnd & Hall & Hdom). split.
  - unfold aligned. rewrite Hk, Hv. split_and!.
    + apply NoDup_app. split_and!; [done| |apply NoDup_singleton].
      intros k Hin Hk'%list_elem_of_singleton. by subst.
    + apply Forall2_app.
      * eapply Forall2_impl; [exact Hall|]. intros k x Hx.
        exact (lookup_weaken _ _ _ _ Hx Hsub).
      * constructor; [|constructor]. by rewrite Hp, lookup_insert_eq.
    + intros k. rewrite Hp, lookup_insert, elem_of_app, list_elem_of_singleton.
      case_decide; [by right | left; by apply Hdom].
  - split_and!; [done | rewrite Hk; by apply prefix_app_r
                | rewrite Hv; by apply prefix_app_r].
Qed.

Lemma vocab_getitem_inv v key w p v' w' :
  vocab_getitem v key w = Ok ((p, v'), w') →
  (pointers v !! key = Some p ∧ v' = v ∧ w' = w) ∨
  (pointers v !! key = None ∧ vocab_add v key p = Ok v').
Proof.
  unfold vocab_getitem. destruct (valid_key key); simpl; [|done].
  destruct (pointers v !! key) as [x|] eqn:Hx.
  - intros [= <- <- <-]. by left.
  - intros Hrun. right. split; [done|].
    apply bind_inv in Hrun as (q & w1 & Hdraw & Hrun).
    apply bind_inv in Hrun as (v1 & w2 & Hadd & Hret).
    injection Hret as <- <- <-. by apply lift_inv in Hadd.
Qed.

Lemma add_new_one ks k :
  add_new ks [k] = if decide (k ∈ ks) then ks else ks ++ [k].
Proof. done. Qed.

Lemma add_new_app ks ns1 ns2 :
  add_new ks (ns1 ++ ns2) = add_new (add_new ks ns1) ns2.
Proof. apply fold_left_app. Qed.

Lemma add_new_fresh ns : ∀ ks,
  NoDup (ks ++ ns) → add_new ks ns = ks ++ ns.
Proof.
  induction ns as [|k ns IH]; intros ks Hnd; simpl.
  - by rewrite app_nil_r.
  - apply NoDup_app in Hnd as (Hks & Hdis & Hns).
    apply NoDup_cons in Hns as [Hk Hns].
    unfold add_new. simpl. fold (add_new (if decide (k ∈ ks) then ks else ks ++ [k]) ns).
    destruct (decide (k ∈ ks)) as [Hin|Hin].
    { exfalso. apply (Hdis k Hin). by left. }
    rewrite IH; [by rewrite <- app_assoc|].
    rewrite <- app_assoc. simpl. apply NoDup_app. split_and!; [done| |by apply NoDup_cons].
    done.
Qed.

Lemma vocab_getitem_aligned v key w p v' w' :
  vocab_getitem v key w = Ok ((p, v'), w') → aligned v →
  aligned v' ∧ grows v v' ∧ keys v' = add_new (keys v) [key] ∧
  pointers v' !! key = Some p.
Proof.
  intros Hget Hal. rewrite add_new_one.
  apply vocab_getitem_inv in Hget as [(Hp & -> & ->)|[Hnone Hadd]].
  - split_and!; try done. rewrite decide_True; [done|].
    destruct Hal as (_ & _ & Hdom). apply Hdom. by exists p.
  - destruct (vocab_add_aligned _ _ _ _ Hadd Hal) as [Hal' Hgr].
    apply vocab_add_inv in Hadd as (_ & _ & Hp & Hk & _).
    split_and!; try done.
    + rewrite decide_False; [done|]. intros Hin.
      apply (aligned_key_some _ _ Hal) in Hin. rewrite Hnone in Hin.
      by destruct Hin.
    + by rewrite Hp, lookup_insert_eq.
Qed.

Lemma eval_aligned e : ∀ v w val v' w',
  eval e v w = Ok ((val, v'), w') → aligned v →
  aligned v' ∧ grows v v' ∧ keys v' = add_new (keys v) (names e).
Proof.
  induction e as [s|a IHa b IHb|a IHa b IHb]; intros v w val v' w' Hrun Hal.
  - simpl in Hrun.
    by destruct (vocab_getitem_aligned _ _ _ _ _ _ Hrun Hal) as (? & ? & ? & _).
  - simpl in Hrun.
    apply bind_inv in Hrun as ([x v1] & w1 & Ha & Hrun).
    apply bind_inv in Hrun as ([y v2] & w2 & Hb & Hret).
    injection Hret as <- <- <-.
    destruct (IHa _ _ _ _ _ Ha Hal) as (Hal1 & Hg1 & Hk1).
    destruct (IHb _ _ _ _ _ Hb Hal1) as (Hal2 & Hg2 & Hk2).
    split_and!; [done | by eapply grows_trans |].
    simpl. by rewrite add_new_app, <- Hk1.
  - simpl in Hrun.
    apply bind_inv in Hrun as ([x v1] & w1 & Ha & Hrun).
    apply bind_inv in Hrun as ([y v2] & w2 & Hb & Hret).
    injection Hret as <- <- <-.
    destruct (IHa _ _ _ _ _ Ha Hal) as (Hal1 & Hg1 & Hk1).
    destruct (IHb _ _ _ _ _ Hb Hal1) as (Hal2 & Hg2 & Hk2).
    split_and!; [done | by eapply grows_trans |].
    simpl. by rewrite add_new_app, <- Hk1.
Qed.

Lemma names_fold_terms ts : ∀ e0,
  names (fold_left (λ acc t, EAdd acc (term_expr t)) ts e0)
  = names e0 ++ (ts ≫= λ t, [t.1; t.2]).
Proof.
  induction ts as [|t ts IH]; intros e0; simpl.
  - by rewrite app_nil_r.
  - rewrite IH. simpl. by rewrite <- !app_assoc.
Qed.

Lemma names_sum_expr t ts :
  names (sum_expr t ts) = (t :: ts) ≫= λ t, [t.1; t.2].
Proof. unfold sum_expr. by rewrite names_fold_terms. Qed.

Lemma pair_names_bind n l :
  (map (pair_names n) l) ≫= (λ t, [t.1; t.2])
  = l ≫= λ j, [role_name n j; filler_name n j].
Proof.
  induction l as [|j l IH]; [done|]. simpl map.
  by rewrite !bind_cons, IH.
Qed.

End VocabularyGrowth.

(** ** The vocabulary that [get_data] returns *)

Section VocabularyOfGetData.
Context `{Framework}.

Lemma get_data_item_inv p m st w st' w' :
  get_data_item p m st w = Ok (st', w') →
  ∃ val v1 w1 v2 k w2 t v3 w3 c v4 w4 f,
    vocab_parse (vocab st) (item_text p m) w = Ok ((val, v1), w1) ∧
    vocab_add v1 (trace_key m) (normalize val) = Ok v2 ∧
    rng_randint p w1 = Ok (k, w2) ∧
    vocab_getitem v2 (trace_key m) w2 = Ok ((t, v3), w3) ∧
    set_row (traces st) m t = Ok (traces st') ∧
    vocab_getitem v3 (role_name m k) w3 = Ok ((c, v4), w4) ∧
    set_row (cues st) m c = Ok (cues st') ∧
    vocab_getitem v4 (filler_name m k) w4 = Ok ((f, vocab st'), w') ∧
    set_row (targets st) m f = Ok (targets st').
Proof.
  unfold get_data_item. rewrite zip_names. intros Hrun.
  apply bind_inv in Hrun as ([val v1] & w1 & Hparse & Hrun).
  apply bind_inv in Hrun as (v2 & w1' & Hadd & Hrun).
  pose proof Hadd as Hw. unfold lift in Hw.
  destruct (vocab_add v1 _ _) as [v2'|] eqn:Hadd'; [|done].
  injection Hw as <- <-.
  apply bind_inv in Hrun as (k & w2 & Hrand & Hrun).
  apply bind_inv in Hrun as ([t v3] & w3 & Hg1 & Hrun).
  apply bind_inv in Hrun as (tr & w3' & Hs1 & Hrun).
  pose proof Hs1 as Hw. unfold lift in Hw.
  destruct (set_row (traces st) m t) as [tr'|] eqn:Hs1'; [|done].
  injection Hw as <- <-.
  apply bind_inv in Hrun as ([c v4] & w4 & Hg2 & Hrun).
  apply bind_inv in Hrun as (cu & w4' & Hs2 & Hrun).
  pose proof Hs2 as Hw. unfold lift in Hw.
  destruct (set_row (cues st) m c) as [cu'|] eqn:Hs2'; [|done].
  injection Hw as <- <-.
  apply bind_inv in Hrun as ([f v5] & w5 & Hg3 & Hrun).
  apply bind_inv in Hrun as (tg & w5' & Hs3 & Hrun).
  pose proof Hs3 as Hw. unfold lift in Hw.
  destruct (set_row (targets st) m f) as [tg'|] eqn:Hs3'; [|done].
  injection Hw as <- <-.
  injection Hrun as <- <-. simpl.
  by exists val, v1, w1, v2', k, w2, t, v3, w3, c, v4, w4, f.
Qed.

Lemma rng_randint_inv p w k w' : rng_randint p w = Ok (k, w') → k < p.
Proof.
  unfold rng_randint. destruct (Nat.eqb_spec p 0) as [->|Hp]; [done|].
  unfold draw. destruct (randint p (rng_obj w)) as [k' s] eqn:Hri.
  intros [= <- _]. pose proof (randint_lt p (rng_obj w) ltac:(lia)) as Hlt.
  by rewrite Hri in Hlt.
Qed.

Lemma add_new_member ks k : k ∈ ks → add_new ks [k] = ks.
Proof. intros Hk. rewrite add_new_one. by rewrite decide_True. Qed.

Lemma item_text_parses p m v w :
  0 < p →
  vocab_parse v (item_text (S (pred p)) m) w
  = eval (sum_expr (pair_names m 0) (map (pair_names m) (seq 1 (pred p)))) v w.
Proof.
  intros Hp. unfold vocab_parse, item_text.
  change (seq 0 (S (pred p))) with (0 :: seq 1 (pred p)).
  rewrite map_cons, parse_text; [done|].
  change (pair_names m 0 :: map (pair_names m) (seq 1 (pred p)))
    with (map (pair_names m) (seq 0 (S (pred p)))).
  apply pair_names_like.
Qed.

Lemma get_data_item_grows p m st w st' w' :
  get_data_item p m st w = Ok (st', w') →
  aligned (vocab st) → keys (vocab st) = all_keys p m →
  aligned (vocab st') ∧ keys (vocab st') = all_keys p (S m) ∧
  grows (vocab st) (vocab st').
Proof.
  intros Hrun Hal Hkeys.
  destruct p as [|p']; [by rewrite get_data_no_pairs in Hrun|].
  apply get_data_item_inv in Hrun
    as (val & v1 & w1 & v2 & k & w2 & t & v3 & w3 & c & v4 & w4 & f
        & Hparse & Hadd & Hrand & Hg1 & _ & Hg2 & _ & Hg3 & _).
  rewrite (item_text_parses (S p') m) in Hparse by lia. simpl pred in Hparse.
  destruct (eval_aligned _ _ _ _ _ _ Hparse Hal) as (Hal1 & Hgr1 & Hk1).
  rewrite names_sum_expr in Hk1.
  change (pair_names m 0 :: map (pair_names m) (seq 1 p'))
    with (map (pair_names m) (seq 0 (S p'))) in Hk1.
  rewrite pair_names_bind, Hkeys in Hk1.
  pose proof (NoDup_all_keys (S p') (S m)) as Hnd.
  rewrite all_keys_S in Hnd. unfold item_keys in Hnd.
  rewrite app_assoc in Hnd.
  rewrite add_new_fresh in Hk1 by (by apply NoDup_app in Hnd as (? & _)).
  destruct (vocab_add_aligned _ _ _ _ Hadd Hal1) as [Hal2 Hgr2].
  apply vocab_add_inv in Hadd as (_ & _ & _ & Hk2 & _).
  assert (Hkeys2 : keys v2 = all_keys (S p') (S m)).
  { rewrite Hk2, Hk1, all_keys_S. unfold item_keys. by rewrite app_assoc. }
  apply rng_randint_inv in Hrand.
  assert (Hin : ∀ key, key ∈ item_keys (S p') m → key ∈ all_keys (S p') (S m)).
  { intros key Hkey. apply elem_of_all_keys. exists m. split; [lia|done]. }
  destruct (vocab_getitem_aligned _ _ _ _ _ _ Hg1 Hal2) as (Hal3 & Hgr3 & Hk3 & _).
  rewrite add_new_member in Hk3
    by (rewrite Hkeys2; apply Hin, elem_of_item_keys; by right).
  destruct (vocab_getitem_aligned _ _ _ _ _ _ Hg2 Hal3) as (Hal4 & Hgr4 & Hk4 & _).
  rewrite add_new_member in Hk4
    by (rewrite Hk3, Hkeys2; apply Hin, elem_of_item_keys; left; exists k;
        split; [done | by left]).
  destruct (vocab_getitem_aligned _ _ _ _ _ _ Hg3 Hal4) as (Hal5 & Hgr5 & Hk5 & _).
  rewrite add_new_member in Hk5
    by (rewrite Hk4, Hk3, Hkeys2; apply Hin, elem_of_item_keys; left; exists k;
        split; [done | by right]).
  split_and!; [done | congruence |].
  eapply grows_trans; [exact Hgr1|]. eapply grows_trans; [exact Hgr2|].
  eapply grows_trans; [exact Hgr3|]. by eapply grows_trans.
Qed.

Lemma for_each_invariant (P : nat → dataset → Prop) body k : ∀ m st w st' w',
  (∀ i a u a' u', m ≤ i < m + k → body i a u = Ok (a', u') → P i a → P (S i) a') →
  for_each body (seq m k) st w = Ok (st', w') → P m st → P (m + k) st'.
Proof.
  induction k as [|k IH]; intros m st w st' w' Hstep Hrun HP.
  - simpl in Hrun. injection Hrun as <- _. by rewrite Nat.add_0_r.
  - simpl in Hrun. apply bind_inv in Hrun as (st1 & w1 & Hbody & Hrun).
    replace (m + S k) with (S m + k) by lia.
    eapply IH; [|exact Hrun|].
    + intros i a u a' u' Hi. apply Hstep. lia.
    + eapply Hstep; [|exact Hbody|exact HP]. lia.
Qed.

Lemma get_data_inv n_items pairs_per_item vec_d vocab_seed w ds w' :
  get_data n_items pairs_per_item vec_d vocab_seed w = Ok (ds, w') →
  ∃ v0 w0,
    Vocabulary_new vec_d LocalRng = Ok v0 ∧
    for_each (get_data_item pairs_per_item) (seq 0 n_items)
      {| traces := np_zeros n_items 1 vec_d;
         cues := np_zeros n_items 1 vec_d;
         targets := np_zeros n_items 1 vec_d;
         vocab := v0 |} w0 = Ok (ds, w').
Proof.
  unfold get_data. intros Hrun.
  apply bind_inv in Hrun as (u & w0 & _ & Hrun).
  apply bind_inv in Hrun as (v0 & w0' & Hnew & Hrun).
  pose proof Hnew as Hw. unfold lift in Hw.
  destruct (Vocabulary_new vec_d LocalRng) as [v0'|]; [|done].
  injection Hw as <- <-. by exists v0', w0.
Qed.

Lemma get_data_aligned n_items pairs_per_item vec_d vocab_seed w ds w' :
  get_data n_items pairs_per_item vec_d vocab_seed w = Ok (ds, w') →
  aligned (vocab ds) ∧ keys (vocab ds) = all_keys pairs_per_item n_items.
Proof.
  intros (v0 & w0 & Hnew & Hrun)%get_data_inv.
  unfold Vocabulary_new in Hnew. destruct (vec_d =? 0); [done|].
  injection Hnew as <-.
  apply (for_each_invariant
           (λ m st, aligned (vocab st) ∧ keys (vocab st) = all_keys pairs_per_item m)
           _ _ _ _ _ _ _) in Hrun; [done| |].
  - intros i a u a' u' _ Hbody [Hal Hk].
    by destruct (get_data_item_grows _ _ _ _ _ _ Hbody Hal Hk) as (? & ? & _).
  - simpl. split; [|done]. split_and!; simpl.
    + constructor.
    + constructor.
    + intros k. rewrite lookup_empty. by intros [? ?].
Qed.

End VocabularyOfGetData.

(** ** Where the vectors of an item are in [vocab.vectors] *)

Section Layout.
Context `{Framework}.

Lemma bind_pairs_lookup {A} (f g : nat → A) p : ∀ a j,
  j < p →
  (seq a p ≫= λ i, [f i; g i]) !! (2 * j) = Some (f (a + j)) ∧
  (seq a p ≫= λ i, [f i; g i]) !! (2 * j + 1) = Some (g (a + j)).
Proof.
  induction p as [|p IH]; intros a j Hj; [lia|].
  simpl seq. rewrite bind_cons. destruct j as [|j].
  - simpl. by rewrite Nat.add_0_r.
  - replace (2 * S j) with (S (S (2 * j))) by lia.
    replace (S (S (2 * j)) + 1) with (S (S (2 * j + 1))) by lia.
    simpl. replace (a + S j) with (S a + j) by lia. apply IH. lia.
Qed.

Lemma length_bind_pairs {A} (f g : nat → A) p a :
  length (seq a p ≫= λ i, [f i; g i]) = 2 * p.
Proof.
  revert a. induction p as [|p IH]; intros a; [done|]. simpl seq.
  rewrite bind_cons, length_app, IH. simpl. lia.
Qed.

Lemma item_keys_lookup p m :
  (∀ j, j < p →
     item_keys p m !! (2 * j) = Some (role_name m j) ∧
     item_keys p m !! (2 * j + 1) = Some (filler_name m j)) ∧
  item_keys p m !! (2 * p) = Some (trace_key m).
Proof.
  unfold item_keys. split.
  - intros j Hj.
    destruct (bind_pairs_lookup (role_name m) (filler_name m) p 0 j Hj)
      as [Hr Hf].
    split; apply lookup_app_l_Some; [exact Hr | exact Hf].
  - rewrite lookup_app_r by (rewrite length_bind_pairs; lia).
    by rewrite length_bind_pairs, Nat.sub_diag.
Qed.

(** Item [m] owns the block of [2 * p + 1] keys that starts at
    [m * (2 * p + 1)]: role and filler of each pair in turn, then the trace. *)
Lemma all_keys_lookup p n m i :
  m < n → i < 2 * p + 1 →
  all_keys p n !! (m * (2 * p + 1) + i) = item_keys p m !! i.
Proof.
  intros Hm Hi. induction n as [|n IH]; [lia|].
  rewrite all_keys_S. destruct (decide (m = n)) as [->|Hne].
  - rewrite lookup_app_r by (rewrite length_all_keys; lia).
    rewrite length_all_keys. f_equal. lia.
  - rewrite lookup_app_l by (rewrite length_all_keys; nia).
    apply IH. lia.
Qed.

Lemma aligned_lookup v i k :
  aligned v → keys v !! i = Some k →
  ∃ x, vectors v !! i = Some x ∧ pointers v !! k = Some x.
Proof.
  intros (_ & Hall & _) Hk.
  destruct (Forall2_lookup_l _ _ _ _ _ Hall Hk) as (x & Hx & Hp). eauto.
Qed.

Lemma item_rows_in_vectors p d n ds :
  state_ok p d n n ds → aligned (vocab ds) → keys (vocab ds) = all_keys p n →
  ∀ m, m < n →
    vectors (vocab ds) !! (m * (2 * p + 1) + 2 * p)
      = Some (row_at (traces ds) m 0) ∧
    ∃ c, c < p ∧
      pointers (vocab ds) !! filler_name m c = Some (row_at (targets ds) m 0) ∧
      vectors (vocab ds) !! (m * (2 * p + 1) + 2 * c)
        = Some (row_at (cues ds) m 0) ∧
      vectors (vocab ds) !! (m * (2 * p + 1) + (2 * c + 1))
        = Some (row_at (targets ds) m 0).
Proof.
  intros (_ & _ & _ & _ & _ & Hitems) Hal Hkeys m Hm.
  destruct (Hitems m Hm)
    as [(rs & fs & _ & _ & _ & _ & Htr & _) (c & Hc & Hcue & Htg)].
  destruct (item_keys_lookup p m) as [Hpairs Htrace].
  destruct (Hpairs c Hc) as [Hrole Hfill].
  assert (Hat : ∀ i k x, i < 2 * p + 1 →
            item_keys p m !! i = Some k →
            pointers (vocab ds) !! k = Some x →
            vectors (vocab ds) !! (m * (2 * p + 1) + i) = Some x).
  { intros i k x Hi Hk Hx.
    destruct (aligned_lookup (vocab ds) (m * (2 * p + 1) + i) k Hal)
      as (y & Hy & Hky).
    - rewrite Hkeys. by rewrite all_keys_lookup.
    - congruence. }
  split.
  - by apply (Hat _ (trace_key m)); [lia|..].
  - exists c. split_and!; [done|done|..].
    + by apply (Hat _ (role_name m c)); [lia|..].
    + by apply (Hat _ (filler_name m c)); [lia|..].
Qed.

End Layout.

(** ** The highlighted bar *)

Section Highlight.
Context `{Framework}.

Lemma highlighted_value vocab targets n0 n1 d :
  shape3 targets = (n0, n1, d) → wf3 targets → 0 < n0 → 0 < n1 →
  dimensions vocab = d → Forall (λ v, length v = d) (vectors vocab) →
  highlighted vocab targets
  = first_true (map (λ v, bool_decide (v = row_at targets 0 0)) (vectors vocab)).
Proof.
  intros Hs Hw Hn0 Hn1 Hd Hvs. unfold highlighted, index_row. rewrite Hs.
  assert (Hzero : ∀ n, 0 < n → py_index n 0 = Some 0).
  { intros n Hn. unfold py_index. by rewrite bool_decide_eq_true_2 by lia. }
  rewrite !Hzero by done. simpl. fold (row_at targets 0 0).
  unfold np_equal, vectors_array. simpl.
  rewrite Hd, broadcast_dim_one_r, broadcast_dim_same. simpl.
  f_equal. unfold np_all_axis1. simpl. rewrite map_map.
  rewrite <- (map_nth_seq [] (vectors vocab)) at 2. rewrite map_map.
  apply map_seq_ext. intros i Hi.
  rewrite (map_seq_ext _ (λ c,
    bool_decide (nth c (nth i (vectors vocab) []) R0
                 = nth c (row_at targets 0 0) R0)) d); last first.
  { intros c Hc. rewrite !broadcast_idx_lt by done.
    unfold broadcast_idx.
    destruct (Nat.eqb_spec (length (vectors vocab)) 1) as [E|E]; [|done].
    by replace i with 0 by lia. }
  apply all_columns_equal.
  - rewrite Forall_forall in Hvs. apply Hvs, list_elem_of_In, nth_In. done.
  - by apply (wf3_row _ n0 n1 d).
Qed.

Lemma first_true_ok mask k :
  first_true mask = Ok k ↔
    mask !! k = Some true ∧ ∀ j, j < k → mask !! j ≠ Some true.
Proof.
  unfold first_true.
  destruct (list_find (λ b, b = true) mask) as [[i x]|] eqn:Hfind.
  - apply list_find_Some in Hfind as (Hi & -> & Hbefore). split.
    + intros [= <-]. split; [done|]. intros j Hj Hjt.
      by apply (Hbefore j true).
    + intros [Hk Hfirst]. f_equal.
      destruct (Nat.lt_trichotomy i k) as [Hlt|[->|Hlt]]; [|done|].
      * by destruct (Hfirst i Hlt).
      * by destruct (Hbefore k true Hk Hlt).
  - split; [done|]. intros [Hk _].
    apply list_find_None in Hfind. rewrite Forall_forall in Hfind.
    destruct (Hfind true); [|done]. by eapply list_elem_of_lookup_2.
Qed.

Lemma first_true_fails mask :
  is_ok (first_true mask) = false ↔ true ∉ mask.
Proof.
  unfold first_true.
  destruct (list_find (λ b, b = true) mask) as [[i x]|] eqn:Hfind; simpl.
  - apply list_find_Some in Hfind as (Hi & -> & _). split; [done|].
    intros Hn. destruct Hn. by eapply list_elem_of_lookup_2.
  - split; [|done]. intros _ Hin.
    apply list_find_None in Hfind. rewrite Forall_forall in Hfind.
    by destruct (Hfind true Hin).
Qed.

End Highlight.

(** ** A larger data set extends a smaller one *)

Section Prefix.
Context `{Framework}.










End Prefix.

(** ** Flattening and reshaping *)

Section Reshape.
Context {A : Type}.

Lemma length_concat_rows r c (rows : list (list A)) :
  wf_rows r c rows → length (concat rows) = r * c.
Proof.
  intros [<- Hall]. induction Hall as [|x l Hx _ IH]; [done|].
  simpl. rewrite length_app, IH. lia.
Qed.

Lemma chunks_concat c (rows : list (list A)) :
  Forall (λ r, length r = c) rows →
  map (λ k, take c (drop (k * c) (concat rows))) (seq 0 (length rows)) = rows.
Proof.
  induction 1 as [|x l Hx _ IH]; [done|].
  simpl. f_equal.
  - rewrite drop_0. by rewrite take_app_length'.
  - rewrite <- seq_shift, map_map. rewrite <- IH at 2.
    apply map_ext. intros k. simpl.
    by rewrite <- drop_drop, drop_app_length'.
Qed.

End Reshape.

(** * Further properties of the notebook code *)

(** X1.  The names that [get_data] gives to its pointers never collide: a
    role, a filler and a trace name are told apart by their first letter, and
    within each kind the name determines the item and the pair it was made
    for (the underscore keeps ROLE_1_11 and ROLE_11_1 apart). *)
Theorem pointer_names_distinct n i n' i' :
  (role_name n i = role_name n' i' ↔ n = n' ∧ i = i') ∧
  (filler_name n i = filler_name n' i' ↔ n = n' ∧ i = i') ∧
  (trace_key n = trace_key n' ↔ n = n') ∧
  role_name n i ≠ filler_name n' i' ∧
  role_name n i ≠ trace_key n' ∧
  filler_name n i ≠ trace_key n'.
Proof.
  split_and!; try done.
  - split; [apply role_name_inj | by intros [-> ->]].
  - split; [apply filler_name_inj | by intros [-> ->]].
  - split; [apply trace_key_inj | by intros ->].
Qed.

(** X2.  The vocabulary that [get_data] returns holds, for each item in turn,
    the role and the filler of each of its pairs and then its trace, each key
    once: [n_items * (2 * pairs_per_item + 1)] keys, and [vocab.vectors]
    stacks their pointers in the same order. *)
Theorem vocabulary_of_get_data `{Framework}
    n_items pairs_per_item vec_d vocab_seed w :
  0 < pairs_per_item → 0 < vec_d →
  ∃ ds w',
    get_data n_items pairs_per_item vec_d vocab_seed w = Ok (ds, w') ∧
    keys (vocab ds) = all_keys pairs_per_item n_items ∧
    NoDup (keys (vocab ds)) ∧
    Forall2 (λ k x, pointers (vocab ds) !! k = Some x)
      (keys (vocab ds)) (vectors (vocab ds)) ∧
    length (vectors (vocab ds)) = n_items * (2 * pairs_per_item + 1).
Proof.
  intros Hp Hd.
  destruct (get_data_ok n_items pairs_per_item vec_d vocab_seed w Hp Hd)
    as (ds & w' & Hrun & _).
  destruct (get_data_aligned _ _ _ _ _ _ _ Hrun) as [(Hnd & Hall & _) Hkeys].
  exists ds, w'. split_and!; try done.
  rewrite <- (Forall2_length _ _ _ Hall), Hkeys. apply length_all_keys.
Qed.

Lemma vocabulary_of_get_data_witness :
  (0 < 2 ∧ 0 < 3) ∧
  ∃ ds w',
    @get_data _ lcg_framework 3 2 3 (Some 0%Z) world0 = Ok (ds, w') ∧
    keys (vocab ds) = all_keys 2 3 ∧
    NoDup (keys (vocab ds)) ∧
    Forall2 (λ k x, pointers (vocab ds) !! k = Some x)
      (keys (vocab ds)) (vectors (vocab ds)) ∧
    length (vectors (vocab ds)) = 3 * (2 * 2 + 1).
Proof.
  split; [lia|].
  apply (@vocabulary_of_get_data _ lcg_framework 3 2 3 (Some 0%Z) world0); lia.
Defined.

(** X3.  Item [m] owns the rows [m * (2 * p + 1) ...] of [vocab.vectors]:
    its trace [traces[m, 0, :]] is the last row of the block, and for the
    cued pair [c] the cue [cues[m, 0, :]] is row [2 * c] and the target
    [targets[m, 0, :]] row [2 * c + 1] of the block. *)
Theorem vectors_layout `{Framework}
    n_items pairs_per_item vec_d vocab_seed w :
  0 < pairs_per_item → 0 < vec_d →
  ∃ ds w',
    get_data n_items pairs_per_item vec_d vocab_seed w = Ok (ds, w') ∧
    ∀ m, m < n_items →
      let base := m * (2 * pairs_per_item + 1) in
      vectors (vocab ds) !! (base + 2 * pairs_per_item)
        = Some (row_at (traces ds) m 0) ∧
      ∃ c, c < pairs_per_item ∧
        vectors (vocab ds) !! (base + 2 * c) = Some (row_at (cues ds) m 0) ∧
        vectors (vocab ds) !! (base + (2 * c + 1))
          = Some (row_at (targets ds) m 0).
Proof.
  intros Hp Hd.
  destruct (get_data_ok n_items pairs_per_item vec_d vocab_seed w Hp Hd)
    as (ds & w' & Hrun & Hok).
  destruct (get_data_aligned _ _ _ _ _ _ _ Hrun) as [Hal Hkeys].
  exists ds, w'. split; [done|]. intros m Hm base.
  destruct (item_rows_in_vectors _ _ _ _ Hok Hal Hkeys m Hm)
    as (Htr & c & Hc & _ & Hcue & Htg).
  split; [done|]. by exists c.
Qed.

Lemma vectors_layout_witness :
  (0 < 2 ∧ 0 < 3) ∧
  ∃ ds w',
    @get_data _ lcg_framework 3 2 3 (Some 0%Z) world0 = Ok (ds, w') ∧
    ∀ m, m < 3 →
      let base := m * (2 * 2 + 1) in
      vectors (vocab ds) !! (base + 2 * 2) = Some (row_at (traces ds) m 0) ∧
      ∃ c, c < 2 ∧
        vectors (vocab ds) !! (base + 2 * c) = Some (row_at (cues ds) m 0) ∧
        vectors (vocab ds) !! (base + (2 * c + 1))
          = Some (row_at (targets ds) m 0).
Proof.
  split; [lia|].
  apply (@vectors_layout _ lcg_framework 3 2 3 (Some 0%Z) world0); lia.
Defined.

(** X4.  The plotting cell's index
    [np.where(np.all(test_vocab.vectors == test_targets[0, 0], axis=1))[0][0]],
    for targets of shape (n0, n1, d) and a vocabulary of dimension [d]:
    it is the first row of [vocab.vectors] equal to [test_targets[0, 0]], and
    the lookup succeeds exactly when the targets have an item and a step and
    some row of the vocabulary equals that target (else IndexError). *)
Theorem highlighted_is_first_match `{Framework} test_vocab test_targets n0 n1 d :
  shape3 test_targets = (n0, n1, d) → wf3 test_targets →
  dimensions test_vocab = d →
  Forall (λ v, length v = d) (vectors test_vocab) →
  (∀ k, highlighted test_vocab test_targets = Ok k ↔
     0 < n0 ∧ 0 < n1 ∧
     vectors test_vocab !! k = Some (row_at test_targets 0 0) ∧
     ∀ j, j < k → vectors test_vocab !! j ≠ Some (row_at test_targets 0 0)) ∧
  (is_ok (highlighted test_vocab test_targets) = true ↔
     0 < n0 ∧ 0 < n1 ∧ row_at test_targets 0 0 ∈ vectors test_vocab) ∧
  (is_ok (highlighted test_vocab test_targets) = false →
     highlighted test_vocab test_targets
     = Raise (Failure IndexError ndarray_getitem)).
Proof.
  intros Hs Hw Hd Hvs.
  destruct (decide (0 < n0 ∧ 0 < n1)) as [[Hn0 Hn1]|Hno].
  - rewrite (highlighted_value _ _ n0 n1 d) by done.
    set (t := row_at test_targets 0 0).
    assert (Hmask : ∀ j b,
      map (λ v, bool_decide (v = t)) (vectors test_vocab) !! j = Some b ↔
      ∃ v, vectors test_vocab !! j = Some v ∧ b = bool_decide (v = t)).
    { intros j b. rewrite list_lookup_fmap.
      destruct (vectors test_vocab !! j) as [v|]; simpl; split.
      - intros E. injection E as E. exists v. by split.
      - intros (v' & E & Hb). injection E as E. by subst.
      - intros E. discriminate E.
      - intros (v' & E & _). discriminate E. }
    split_and!.
    + intros k. rewrite first_true_ok. split.
      * intros [Hk Hfirst]. apply Hmask in Hk as (v & Hv & Hb).
        symmetry in Hb. apply bool_decide_eq_true_1 in Hb. subst v.
        split_and!; try done. intros j Hj Hjv. apply (Hfirst j Hj).
        apply Hmask. exists t. split; [done|]. by rewrite bool_decide_eq_true_2.
      * intros (_ & _ & Hk & Hfirst). split.
        -- apply Hmask. exists t. split; [done|]. by rewrite bool_decide_eq_true_2.
        -- intros j Hj Hjm. apply Hmask in Hjm as (v & Hv & Hb).
           symmetry in Hb. apply bool_decide_eq_true_1 in Hb. subst v.
           by apply (Hfirst j Hj).
    + destruct (is_ok _) eqn:Hok.
      * split; [intros _|done]. split_and!; try done.
        destruct (first_true _) as [k|] eqn:Hft; [|done].
        apply first_true_ok in Hft as [Hk _]. apply Hmask in Hk as (v & Hv & Hb).
        symmetry in Hb. apply bool_decide_eq_true_1 in Hb. subst v.
        by eapply list_elem_of_lookup_2.
      * split; [done|]. intros (_ & _ & Hin). apply first_true_fails in Hok.
        destruct Hok. apply list_elem_of_fmap. exists t.
        split; [by rewrite bool_decide_eq_true_2 | done].
    + unfold first_true. by destruct (list_find _ _) as [[? ?]|].
  - assert (Hraise : highlighted test_vocab test_targets
                     = Raise (Failure IndexError ndarray_getitem)).
    { unfold highlighted, index_row. rewrite Hs.
      assert (Hnone : ∀ n, n = 0 → py_index n 0 = None).
      { intros n ->. done. }
      destruct n0 as [|n0]; [done|]. destruct n1 as [|n1]; [|lia].
      by rewrite (Hnone 0) by done; destruct (py_index (S n0) 0). }
    rewrite Hraise. split_and!; try done.
    + intros k. split; [done | by intros (? & ? & _); destruct Hno].
    + split; [done | by intros (? & ? & _); destruct Hno].
Qed.

Lemma highlighted_is_first_match_witness :
  (∀ k, highlighted two_vectors targets2 = Ok k ↔
     0 < 2 ∧ 0 < 1 ∧
     vectors two_vectors !! k = Some (row_at targets2 0 0) ∧
     ∀ j, j < k → vectors two_vectors !! j ≠ Some (row_at targets2 0 0)) ∧
  (is_ok (highlighted two_vectors targets2) = true ↔
     0 < 2 ∧ 0 < 1 ∧ row_at targets2 0 0 ∈ vectors two_vectors) ∧
  (is_ok (highlighted two_vectors targets2) = false →
     highlighted two_vectors targets2
     = Raise (Failure IndexError ndarray_getitem)).
Proof.
  apply (@highlighted_is_first_match _ lcg_framework two_vectors targets2 2 1 2).
  - reflexivity.
  - split; [reflexivity|]. repeat constructor.
  - reflexivity.
  - repeat constructor.
Defined.

(** X5.  On the data of [get_data] with at least one item the plotting cell
    finds its bar: the index exists, the row it names is the target of item 0,
    which is the vector of FILLER_0_c for the cued pair [c], and the bar is
    not beyond that filler's own row [2 * c + 1]. *)
Theorem highlighted_bar_of_first_item `{Framework}
    n_items pairs_per_item vec_d vocab_seed w :
  0 < n_items → 0 < pairs_per_item → 0 < vec_d →
  ∃ ds w' k c,
    get_data n_items pairs_per_item vec_d vocab_seed w = Ok (ds, w') ∧
    highlighted (vocab ds) (targets ds) = Ok k ∧
    vectors (vocab ds) !! k = Some (row_at (targets ds) 0 0) ∧
    c < pairs_per_item ∧ k ≤ 2 * c + 1 ∧
    pointers (vocab ds) !! filler_name 0 c = Some (row_at (targets ds) 0 0).
Proof.
  intros Hn Hp Hd.
  destruct (get_data_ok n_items pairs_per_item vec_d vocab_seed w Hp Hd)
    as (ds & w' & Hrun & Hok).
  destruct (get_data_aligned _ _ _ _ _ _ _ Hrun) as [Hal Hkeys].
  destruct (item_rows_in_vectors _ _ _ _ Hok Hal Hkeys 0 Hn)
    as (_ & c & Hc & Hfill & _ & Htg).
  change (0 * (2 * pairs_per_item + 1) + (2 * c + 1)) with (2 * c + 1) in Htg.
  destruct Hok as (_ & _ & [Hshape Hwf] & (Hdim & _ & _ & Hlen) & _ & _).
  pose proof (highlighted_value (vocab ds) (targets ds) n_items 1 vec_d
                Hshape Hwf Hn ltac:(lia) Hdim Hlen) as Hval.
  set (t := row_at (targets ds) 0 0) in *.
  assert (Hmask : map (λ v, bool_decide (v = t)) (vectors (vocab ds))
                    !! (2 * c + 1) = Some true).
  { rewrite list_lookup_fmap, Htg. simpl. by rewrite bool_decide_eq_true_2. }
  destruct (first_true _) as [k|f] eqn:Hft.
  - exists ds, w', k, c. pose proof Hft as Hft'.
    apply first_true_ok in Hft as [Hk Hfirst].
    rewrite list_lookup_fmap in Hk.
    destruct (vectors (vocab ds) !! k) as [v|] eqn:Hv; [|done].
    simpl in Hk. injection Hk as Hk. apply bool_decide_eq_true_1 in Hk.
    subst v. split_and!; try done.
    destruct (decide (k ≤ 2 * c + 1)) as [Hle|Hgt]; [done|].
    by destruct (Hfirst (2 * c + 1) ltac:(lia)).
  - exfalso.
    assert (Hfail : is_ok (first_true (map (λ v, bool_decide (v = t))
                                         (vectors (vocab ds)))) = false)
      by (by rewrite Hft).
    apply first_true_fails in Hfail. apply Hfail.
    by eapply list_elem_of_lookup_2.
Qed.

Lemma highlighted_bar_of_first_item_witness :
  (0 < 3 ∧ 0 < 2 ∧ 0 < 3) ∧
  ∃ ds w' k c,
    @get_data _ lcg_framework 3 2 3 (Some 0%Z) world0 = Ok (ds, w') ∧
    highlighted (vocab ds) (targets ds) = Ok k ∧
    vectors (vocab ds) !! k = Some (row_at (targets ds) 0 0) ∧
    c < 2 ∧ k ≤ 2 * c + 1 ∧
    pointers (vocab ds) !! filler_name 0 c = Some (row_at (targets ds) 0 0).
Proof.
  split; [lia|].
  apply (@highlighted_bar_of_first_item _ lcg_framework 3 2 3 (Some 0%Z) world0); lia.
Defined.



(** X7.  An item can only be a hit when its target is a row of the
    vocabulary: against a vocabulary that holds none of the targets (say the
    vocabulary of another call of [get_data]) [accuracy] is 0 whatever the
    output. *)
Theorem accuracy_zero_without_targets `{Scalar}
    output vocab targets t b s d ts :
  shape3 output = (b, s, d) → wf3 output →
  shape3 targets = (b, ts, d) → wf3 targets → 0 < ts →
  dimensions vocab = d →
  Forall (λ v, length v = d) (vectors vocab) →
  vectors vocab ≠ [] →
  0 < b → (- Z.of_nat s ≤ t < Z.of_nat s)%Z →
  (∀ i, i < b → row_at targets i 0 ∉ vectors vocab) →
  accuracy output vocab targets t = Ok (Finite (0 # Pos.of_nat b)).
Proof.
  intros Hso Hwo Hst Hwt Hts Hd Hvs Hne Hb Ht Hmiss.
  destruct (proj2 (py_index_some s t) Ht) as [j Hj].
  rewrite (accuracy_value output vocab targets t b s d ts j) by done.
  rewrite (map_seq_ext _ (λ _, false) b); last first.
  { intros i Hi. apply bool_decide_eq_false_2. intros E.
    apply (Hmiss i Hi). rewrite <- E. apply list_elem_of_In, nth_In.
    pose proof (argmax_lt (similarities vocab (row_at output i j))) as Hlt.
    unfold similarities in *. rewrite length_map in Hlt. apply Hlt.
    by destruct (vectors vocab). }
  unfold np_mean. rewrite length_map, length_seq.
  destruct b as [|b']; [lia|]. do 3 f_equal.
  unfold count_true.
  assert (Hnone : ∀ l : list nat, filter (λ x, x = true) (map (λ _, false) l) = [])
    by (intros l; induction l as [|a l IH]; [done|];
        simpl; rewrite filter_cons_False; done).
  by rewrite Hnone.
Qed.

Lemma accuracy_zero_without_targets_witness :
  accuracy output2 two_vectors
    (Array3 (2, 1, 2) [[[5; 5]]; [[7; 7]]]%Z) (-1)
  = Ok (Finite (0 # Pos.of_nat 2)).
Proof.
  apply (accuracy_zero_without_targets output2 two_vectors _ (-1) 2 1 2 1).
  - reflexivity.
  - split; [reflexivity|]. repeat constructor.
  - reflexivity.
  - split; [reflexivity|]. repeat constructor.
  - lia.
  - reflexivity.
  - repeat constructor.
  - discriminate.
  - lia.
  - simpl; lia.
  - intros i Hi Hin. destruct i as [|[|i]]; [| |lia];
      apply list_elem_of_In in Hin; simpl in Hin;
      destruct Hin as [E|[E|[]]]; discriminate E.
Defined.

(** X8.  With no item to generate, [get_data] returns empty arrays and an
    empty vocabulary whatever the number of pairs, and the two consumers
    then fail: [accuracy] with a ValueError, from the arg-max over an empty
    vocabulary, and the plotting cell with an IndexError. *)
Theorem empty_data_set `{Framework} pairs_per_item vec_d vocab_seed w output s t :
  0 < vec_d → shape3 output = (0, s, vec_d) →
  (- Z.of_nat s ≤ t < Z.of_nat s)%Z →
  ∃ ds w',
    get_data 0 pairs_per_item vec_d vocab_seed w = Ok (ds, w') ∧
    keys (vocab ds) = [] ∧ vectors (vocab ds) = [] ∧
    traces ds = Array3 (0, 1, vec_d) [] ∧
    cues ds = Array3 (0, 1, vec_d) [] ∧
    targets ds = Array3 (0, 1, vec_d) [] ∧
    accuracy output (vocab ds) (targets ds) t
      = Raise (Failure ValueError np_argmax_call) ∧
    highlighted (vocab ds) (targets ds)
      = Raise (Failure IndexError ndarray_getitem).
Proof.
  intros Hd Hso Ht. unfold get_data, mbind at 1, M_bind.
  destruct vocab_seed as [sd|]; simpl.
  all: unfold Vocabulary_new; destruct (Nat.eqb_spec vec_d 0) as [->|_]; [lia|].
  all: simpl; eexists _, _; (split; [done|]); simpl; split_and!; try done.
  all: unfold accuracy, index_axis1; rewrite Hso.
  all: destruct (proj2 (py_index_some s t) Ht) as [j ->]; simpl.
  all: unfold np_dot, T, vectors_array; simpl.
  all: by rewrite bool_decide_eq_true_2.
Qed.

Lemma empty_data_set_witness :
  (0 < 2 ∧ shape3 no_items = (0, 1, 2) ∧ (- Z.of_nat 1 ≤ -1 < Z.of_nat 1)%Z) ∧
  ∃ ds w',
    @get_data _ lcg_framework 0 0 2 (Some 0%Z) world0 = Ok (ds, w') ∧
    keys (vocab ds) = [] ∧ vectors (vocab ds) = [] ∧
    traces ds = Array3 (0, 1, 2) [] ∧
    cues ds = Array3 (0, 1, 2) [] ∧
    targets ds = Array3 (0, 1, 2) [] ∧
    accuracy no_items (vocab ds) (targets ds) (-1)
      = Raise (Failure ValueError np_argmax_call) ∧
    highlighted (vocab ds) (targets ds)
      = Raise (Failure IndexError ndarray_getitem).
Proof.
  split; [split_and!; try reflexivity; simpl; lia|].
  apply (@empty_data_set _ lcg_framework 0 2 (Some 0%Z) world0 no_items 1 (-1)).
  - lia.
  - reflexivity.
  - simpl; lia.
Defined.

(** X9.  [x[:, None, :]] adds a time axis of length one and keeps the data:
    the result has shape (n0, 1, n1), is rectangular exactly when [x] is, and
    reading its only step back ([[:, 0, :]] or [[:, -1, :]]) gives [x]; any
    other step is an IndexError. *)
Theorem time_axis_round_trip `{Scalar} (x : ndarray2 scalar) (t : Z) :
  shape3 (add_time_axis x) = ((shape2 x).1, 1, (shape2 x).2) ∧
  index_axis1 (add_time_axis x) t
  = (if bool_decide (t = 0 ∨ t = -1)%Z then Ok x
     else Raise (Failure IndexError ndarray_getitem)) ∧
  (wf3 (add_time_axis x) ↔ wf_rows (shape2 x).1 (shape2 x).2 (rows2 x)).
Proof.
  destruct x as [[n0 n1] rows]. unfold add_time_axis. simpl. split_and!.
  - done.
  - unfold index_axis1, py_index. simpl.
    repeat case_bool_decide; try lia; try done.
    all: do 2 f_equal; rewrite map_map; etrans; [|apply map_id].
    all: apply map_ext; intros r.
    all: match goal with
         | |- context [Z.to_nat ?e] => replace (Z.to_nat e) with 0 by lia
         end; done.
  - unfold wf3, wf_rows. simpl. rewrite length_map. split.
    + intros [Hlen Hall]. split; [done|].
      rewrite Forall_forall in Hall. apply Forall_forall. intros r Hr.
      destruct (Hall [r]) as [_ Hrow].
      { apply list_elem_of_fmap. by exists r. }
      by rewrite Forall_singleton in Hrow.
    + intros [Hlen Hall]. split; [done|].
      rewrite Forall_forall in Hall. apply Forall_forall. intros m Hm.
      apply list_elem_of_fmap in Hm as (r & -> & Hr). split; [done|].
      apply Forall_singleton. by apply Hall.
Qed.

(** X10.  The notebooks use their simulators one after the other: for both
    values of [do_training], a simulator is created only when no other is
    open, each one is closed once (by its [with] block or by [sim.close()]),
    and none is left open at the end. *)
Theorem simulators_one_at_a_time (do_training : bool) :
  one_at_a_time []
    (Lifecycle.trace_of (Lifecycle.spa_retrieval do_training)) = true ∧
  one_at_a_time [] (Lifecycle.trace_of Lifecycle.from_tensorflow) = true ∧
  one_at_a_time [] (Lifecycle.trace_of Lifecycle.keras_model) = true.
Proof. destruct do_training; split_and!; reflexivity. Qed.



(** X12.  The display loop of the Keras notebook shows the images as they
    were loaded.  For images of shape [(n, r, c)], flattening them with
    [reshape((n, -1))] and reading [train_images[i].reshape((r, c))] gives
    image [i] back, for every index [i] of the first axis (negative ones
    count from the end).  The cell fails with ValueError when there is no
    image (the [-1] cannot be inferred) or when the shape asked for has
    another number of pixels, and with IndexError when [i] is not an index
    of the first axis. *)
Theorem shown_image_round_trip {A} (x : ndarray3 A) (n r c : nat) (i : Z)
  (r' c' : nat) :
  wf3 x → shape3 x = (n, r, c) →
  (n = 0 → shown_image x i r' c' = inl ValueError) ∧
  (0 < n → py_index n i = None → shown_image x i r' c' = inl IndexError) ∧
  (is_Some (py_index n i) → r' * c' ≠ r * c →
   shown_image x i r' c' = inl ValueError) ∧
  (∀ k, py_index n i = Some k →
        shown_image x i r c = inr (Array2 (r, c) (nth k (items3 x) []))).
Proof.
  intros [Hlen Hall] Hshape. rewrite Hshape in Hlen, Hall. simpl in Hlen, Hall.
  assert (Hrow : ∀ k, py_index n i = Some k →
            0 < n ∧ wf_rows r c (nth k (items3 x) []) ∧
            nth k (map (@concat A) (items3 x)) [] = concat (nth k (items3 x) [])).
  { intros k Hk. apply py_index_lt in Hk. split_and!; [lia| |].
    - rewrite Forall_forall in Hall. apply Hall, list_elem_of_In, nth_In. lia.
    - change (@nil A) with (concat (@nil (list A))) at 1. apply map_nth. }
  unfold shown_image, flatten_images, getitem_row. rewrite Hshape.
  split_and!.
  - by intros ->.
  - intros Hn Hi. destruct (Nat.eqb_spec n 0) as [|_]; [lia|].
    simpl. by rewrite Hi.
  - intros [k Hk] Hne. destruct (Hrow k Hk) as (Hn & Hwf & Hnth).
    destruct (Nat.eqb_spec n 0) as [|_]; [lia|].
    simpl. rewrite Hk, Hnth. unfold reshape_2d.
    rewrite (length_concat_rows r c) by done.
    by destruct (Nat.eqb_spec (r * c) (r' * c')) as [Heq|_]; [lia|].
  - intros k Hk. destruct (Hrow k Hk) as (Hn & Hwf & Hnth).
    destruct (Nat.eqb_spec n 0) as [|_]; [lia|].
    simpl. rewrite Hk, Hnth. unfold reshape_2d.
    rewrite (length_concat_rows r c), Nat.eqb_refl by done.
    destruct Hwf as [Hr Hc]. do 2 f_equal.
    rewrite <- Hr at 1. by apply chunks_concat.
Qed.

Lemma shown_image_round_trip_witness :
  (wf3 images2 ∧ shape3 images2 = (2, 2, 2)) ∧
  (2 = 0 → shown_image images2 (-1) 1 3 = inl ValueError) ∧
  (0 < 2 → py_index 2 (-1) = None →
   shown_image images2 (-1) 1 3 = inl IndexError) ∧
  (is_Some (py_index 2 (-1)) → 1 * 3 ≠ 2 * 2 →
   shown_image images2 (-1) 1 3 = inl ValueError) ∧
  (∀ k, py_index 2 (-1) = Some k →
        shown_image images2 (-1) 2 2
        = inr (Array2 (2, 2) (nth k (items3 images2) []))).
Proof.
  assert (Hwf : wf3 images2).
  { split; [reflexivity|]. repeat constructor. }
  split; [by split|].
  apply (shown_image_round_trip images2 2 2 2 (-1) 1 3); [exact Hwf | reflexivity].
Defined.
